(** * SteamDownloadMonitor: a shallow embedding of [main.py]

    The development follows the four parts of the program:
    - the manifest parser [parse_acf],
    - the directory size scanner [dir_size_bytes],
    - the active-download selector [find_active_download],
    - the rate estimator, which is the body of the polling loop of [main],
    and then what stands around them: the formatting of sizes and rates
    ([fmt_bytes], [human_rate]), the registry lookup ([find_steam_path]) and
    the start-up of [main].

    Modelling conventions.
    - A Python [str] is a Rocq [string]; one character stands for one code
      point, so the model covers the code points U+0000 to U+00FF.  The
      character classes ([str.isspace], [str.isdigit], the line boundaries of
      [str.splitlines] and the class [\s] of [re]) are the restrictions of the
      Python ones to that range.
    - Python [int] is [Z]; [float] (wall-clock time, [st_mtime], the rate) is
      [Q]: the rounding of float arithmetic is not modelled.  The conversion
      [float(n)] of [fmt_bytes] is modelled with its rounding and its
      overflow, and the divisions by 1024 that follow it are exact.
    - A [dict] is a [gmap].
    - The file system is an explicit tree, and the program observes it through
      a small state-and-exception monad whose state is the sequence of
      snapshots that the successive system calls will see.  A path resolves
      when [os.stat] succeeds on it: an entry whose [stat] fails (a dangling
      link) is listed by its directory and does not resolve.  Other symbolic
      links are not modelled, and neither is a [stat] that is refused for
      lack of permission, on which [Path.exists] and [Path.is_dir] raise;
      what can be refused is the listing of a directory and the reading of
      a file.
    - A Python list used as a stack is a Rocq list whose head is the top.
    - The registry, [expanduser] and [sys.executable] are given by a record
      that describes the machine; [argparse] is not modelled, [main] starts
      from the parsed arguments.

    The file gives the program first, then the components as the
    specification words them and the sample inputs, and then the proofs. *)
From Stdlib Require Import ZArith QArith Qabs Ascii String List Permutation Sorted Lia.
From Stdlib Require Import DecimalString.
From stdpp Require Import gmap strings list fin_maps.

Set Warnings "-register-all,-clear-no-such-hyp".

Local Open Scope string_scope.
Local Open Scope Z_scope.

(* ===================================================================== *)
(** * Characters and strings *)
(* ===================================================================== *)

Module Str.

(** [str.isspace] on one character (code points below 256). *)
Definition isspace (c : ascii) : bool :=
  let n := N_of_ascii c in
  (((9 <=? n) && (n <=? 13)) || ((28 <=? n) && (n <=? 32))
   || (n =? 133) || (n =? 160))%N.

(** Line boundaries of [str.splitlines]: LF, VT, FF, CR, FS, GS, RS, NEL. *)
Definition is_linebreak (c : ascii) : bool :=
  let n := N_of_ascii c in
  (((10 <=? n) && (n <=? 13)) || ((28 <=? n) && (n <=? 30)) || (n =? 133))%N.

(** [str.isdigit] on one character: the decimal digits and the superscript
    digits U+00B2, U+00B3, U+00B9. *)
Definition isdigit_char (c : ascii) : bool :=
  let n := N_of_ascii c in
  (((48 <=? n) && (n <=? 57)) || (n =? 178) || (n =? 179) || (n =? 185))%N.

Fixpoint all_chars (p : ascii -> bool) (s : string) : bool :=
  match s with
  | EmptyString => true
  | String c r => p c && all_chars p r
  end.

(** [s.isdigit()]: every character is a digit and there is at least one. *)
Definition isdigit (s : string) : bool :=
  match s with
  | EmptyString => false
  | _ => all_chars isdigit_char s
  end.

Definition is_empty (s : string) : bool :=
  match s with EmptyString => true | _ => false end.

Fixpoint lstrip (s : string) : string :=
  match s with
  | EmptyString => EmptyString
  | String c r => if isspace c then lstrip r else s
  end.

Fixpoint rstrip (s : string) : string :=
  match s with
  | EmptyString => EmptyString
  | String c r =>
      let r' := rstrip r in
      if isspace c && is_empty r' then EmptyString else String c r'
  end.

(** [s.strip()] *)
Definition strip (s : string) : string := rstrip (lstrip s).

(** [s.splitlines()]: [cur] is the line being read.  A final line without a
    terminator is kept unless it is empty, and CR LF is one boundary. *)
Fixpoint splitlines_from (cur : string) (s : string) : list string :=
  match s with
  | EmptyString => if is_empty cur then [] else [cur]
  | String c r =>
      if is_linebreak c then
        cur :: match r with
               | String c' r' =>
                   if (N_of_ascii c =? 13)%N && (N_of_ascii c' =? 10)%N
                   then splitlines_from EmptyString r'
                   else splitlines_from EmptyString r
               | EmptyString => splitlines_from EmptyString r
               end
      else splitlines_from (cur ++ String c EmptyString) r
  end.

Definition splitlines (s : string) : list string := splitlines_from EmptyString s.

(** [s.startswith(p)] *)
Fixpoint startswith (s p : string) : bool :=
  match p with
  | EmptyString => true
  | String a p' =>
      match s with
      | EmptyString => false
      | String b s' => Ascii.eqb a b && startswith s' p'
      end
  end.

Definition is_quote (c : ascii) : bool := (N_of_ascii c =? 34)%N.

(** The longest prefix without a double quote, and the rest: what the two
    greedy negated classes of the pattern consume before the quote that
    follows them. *)
Fixpoint span_nonquote (s : string) : string * string :=
  match s with
  | EmptyString => (EmptyString, EmptyString)
  | String c r =>
      if is_quote c then (EmptyString, s)
      else let '(a, b) := span_nonquote r in (String c a, b)
  end.

End Str.

(* ===================================================================== *)
(** * Manifest parser *)
(* ===================================================================== *)

(** [_ACF_KV_RE.match(line)].  The pattern reads: start, whitespace, a
    quote, one or more characters other than a quote (group 1), a quote,
    whitespace, a quote, zero or more characters other than a quote
    (group 2), a quote, whitespace, end.  The result is (group 1, group 2).
    No repeated class of the pattern overlaps the character that follows it,
    so the greedy match is the only one. *)
Definition acf_kv_match (line : string) : option (string * string) :=
  match Str.lstrip line with
  | String q1 s1 =>
      if Str.is_quote q1 then
        let '(k, s2) := Str.span_nonquote s1 in
        if Str.is_empty k then None else
        match s2 with
        | String _ s3 =>
            match Str.lstrip s3 with
            | String q3 s4 =>
                if Str.is_quote q3 then
                  let '(v, s5) := Str.span_nonquote s4 in
                  match s5 with
                  | String _ s6 =>
                      if Str.all_chars Str.isspace s6 then Some (k, v) else None
                  | EmptyString => None
                  end
                else None
            | EmptyString => None
            end
        | EmptyString => None
        end
      else None
  | EmptyString => None
  end.

(** [data.setdefault(k, v)] *)
Definition setdefault (k v : string) (data : gmap string string) : gmap string string :=
  match data !! k with
  | Some _ => data
  | None => <[k := v]> data
  end.

(** [stack.pop()] guarded by [if stack:] *)
Definition pop_if_any (stack : list string) : list string :=
  match stack with
  | [] => []
  | _ :: s => s
  end.

(** One iteration of the loop of [parse_acf] over the lines of the file; the
    state is the brace stack and the dictionary built so far. *)
Definition acf_line (st : list string * gmap string string) (raw : string)
  : list string * gmap string string :=
  let '(stack, data) := st in
  let line := Str.strip raw in
  if Str.is_empty line || Str.startswith line "//" then st
  else if String.eqb line "{" then ("{" :: stack, data)
  else if String.eqb line "}" then (pop_if_any stack, data)
  else match acf_kv_match line with
       | Some (k, v) =>
           if (1 <=? length stack)%nat then (stack, setdefault k v data) else st
       | None => st
       end.

Definition acf_loop (lines : list string) : list string * gmap string string :=
  fold_left acf_line lines ([], ∅).

(** The part of [parse_acf] that works on the decoded text of the file. *)
Definition parse_acf_text (text : string) : gmap string string :=
  snd (acf_loop (Str.splitlines text)).

(* ===================================================================== *)
(** * The file system and the monad of observations *)
(* ===================================================================== *)

(** What [os.stat] returns, as far as the program reads it. *)
Record stat_result := { st_mtime : Q; st_size : Z }.

(** A file system tree.  A [File] is any entry that is not a directory; its
    [stat] is [None] when [os.stat] finds nothing behind the entry (a
    dangling link) and its [text] is [None] when it cannot be read.  A [Dir]
    carries its modification time, whether it can be listed, and its
    entries. *)
Inductive node :=
| File (st : option stat_result) (text : option string)
| Dir (mtime : Q) (listable : bool) (entries : list (string * node)).

(** [pathlib.Path]: the components below the root of the tree. *)
Definition path := list string.

(** [p.name] *)
Definition path_name (p : path) : string := List.last p "".

(** [p / name] *)
Definition path_join (p : path) (name : string) : path := (p ++ [name])%list.

Fixpoint entry (name : string) (es : list (string * node)) : option node :=
  match es with
  | [] => None
  | (n, x) :: r => if String.eqb n name then Some x else entry name r
  end.

(** What [os.stat] reaches at the end of a path: nothing where an entry is
    missing, or where the entry reached has no [stat]. *)
Fixpoint lookup_path (root : node) (p : path) : option node :=
  match p with
  | [] => match root with File None _ => None | _ => Some root end
  | c :: p' =>
      match root with
      | Dir _ _ es =>
          match entry c es with
          | Some x => lookup_path x p'
          | None => None
          end
      | File _ _ => None
      end
  end.

(** One instant of the outside world: the tree and the wall clock. *)
Record snapshot := { fs : node; wall_clock : Q }.

(** The world seen by the program: the snapshot that the next system call
    observes and the snapshots that the calls after it will observe.  When
    [upcoming] is exhausted the world stays as it is. *)
Record World := { current : snapshot; upcoming : list snapshot }.

Definition advance (w : World) : World :=
  match upcoming w with
  | [] => w
  | s :: r => {| current := s; upcoming := r |}
  end.

(** A world in which nothing changes any more. *)
Definition frozen (s : snapshot) : World := {| current := s; upcoming := [] |}.

(** A world in which the tree stays the one given while the clock runs. *)
Definition steady (t : node) (w : World) : Prop :=
  fs (current w) = t /\ Forall (fun s => fs s = t) (upcoming w).

Inductive exn :=
| FileNotFoundError
| NotADirectoryError
| IsADirectoryError
| PermissionError
| ValueError
| OverflowError.

Inductive outcome (A : Type) :=
| Ok (a : A)
| Raise (e : exn).

Arguments Ok {A} a.
Arguments Raise {A} e.

Definition IO (A : Type) : Type := World -> outcome A * World.

Definition ret {A} (a : A) : IO A := fun w => (Ok a, w).

Definition bind {A B} (m : IO A) (k : A -> IO B) : IO B :=
  fun w =>
    match m w with
    | (Ok a, w') => k a w'
    | (Raise e, w') => (Raise e, w')
    end.

(** [raise e] *)
Definition raise {A} (e : exn) : IO A := fun w => (Raise e, w).

(** [try: m  except Exception: h] *)
Definition try_except {A} (m : IO A) (h : IO A) : IO A :=
  fun w =>
    match m w with
    | (Ok a, w') => (Ok a, w')
    | (Raise _, w') => h w'
    end.

(** One system call: it reads the current snapshot, then the world moves on. *)
Definition observe {A} (f : snapshot -> outcome A) : IO A :=
  fun w => (f (current w), advance w).

Declare Scope io_scope.
Delimit Scope io_scope with io.
Notation "x <- m ;; k" := (bind m (fun x => k))
  (at level 100, m at next level, right associativity) : io_scope.
Local Open Scope io_scope.

(** [for x in xs: acc = body(acc, x)] *)
Fixpoint for_each {A B} (body : B -> A -> IO B) (xs : list A) (acc : B) : IO B :=
  match xs with
  | [] => ret acc
  | x :: r => acc' <- body acc x ;; for_each body r acc'
  end.

(** [p.exists()]: whether [os.stat] succeeds on the path.  The answer is
    [False] where [stat] finds nothing; a [stat] that is refused, on which
    [exists] raises, is outside the model. *)
Definition path_exists (p : path) : IO bool :=
  observe (fun s => Ok (match lookup_path (fs s) p with Some _ => true | None => false end)).

(** [p.is_dir()]: whether [os.stat] succeeds on the path and finds a
    directory; like [exists], it answers [False] where [stat] finds
    nothing. *)
Definition path_is_dir (p : path) : IO bool :=
  observe (fun s => Ok (match lookup_path (fs s) p with Some (Dir _ _ _) => true | _ => false end)).

(** [p.stat().st_mtime]; FileNotFoundError where [stat] finds nothing. *)
Definition path_stat_mtime (p : path) : IO Q :=
  observe (fun s =>
    match lookup_path (fs s) p with
    | Some (Dir m _ _) => Ok m
    | Some (File (Some st) _) => Ok (st_mtime st)
    | Some (File None _) | None => Raise FileNotFoundError
    end).

(** [p.iterdir()], read as a whole *)
Definition path_iterdir (p : path) : IO (list path) :=
  observe (fun s =>
    match lookup_path (fs s) p with
    | Some (Dir _ true es) => Ok (map (fun e => path_join p (fst e)) es)
    | Some (Dir _ false _) => Raise PermissionError
    | Some (File _ _) => Raise NotADirectoryError
    | None => Raise FileNotFoundError
    end).

(** [p.read_text(encoding=..., errors=ignore)]: the decoded text *)
Definition path_read_text (p : path) : IO string :=
  observe (fun s =>
    match lookup_path (fs s) p with
    | Some (File _ (Some t)) => Ok t
    | Some (File _ None) => Raise PermissionError
    | Some (Dir _ _ _) => Raise IsADirectoryError
    | None => Raise FileNotFoundError
    end).

(** [time.time()] *)
Definition time_time : IO Q := observe (fun s => Ok (wall_clock s)).

(** [parse_acf(path)] *)
Definition parse_acf (p : path) : IO (gmap string string) :=
  ex <- path_exists p ;;
  if negb ex then ret ∅
  else try_except (text <- path_read_text p ;; ret (parse_acf_text text)) (ret ∅).

(* ===================================================================== *)
(** * Directory size scanner *)
(* ===================================================================== *)

(** The [files] component that [os.walk] yields for a directory: its entries
    that are not directories, each with what [stat] will give for it. *)
Fixpoint walk_files (es : list (string * node)) : list (option stat_result) :=
  match es with
  | [] => []
  | (_, File st _) :: r => st :: walk_files r
  | (_, Dir _ _ _) :: r => walk_files r
  end.

(** The recursion of [os.walk] into the entries that are directories, in
    the order of the listing. *)
Definition walk_subdirs {X} (walk : node -> list X) : list (string * node) -> list X :=
  fix subdirs (l : list (string * node)) : list X :=
    match l with
    | [] => []
    | (_, File _ _) :: r => subdirs r
    | (_, (Dir _ _ _) as d) :: r => (walk d ++ subdirs r)%list
    end.

(** [os.walk(path)], top-down and with the default [onerror=None]: one item
    per directory visited; a path that cannot be listed yields nothing. *)
Fixpoint os_walk (n : node) : list (list (option stat_result)) :=
  match n with
  | File _ _ => []
  | Dir _ false _ => []
  | Dir _ true es => walk_files es :: walk_subdirs os_walk es
  end.

(** The body of the inner loop: [try: total += fp.stat().st_size
    except Exception: pass]. *)
Definition add_file_size (total : Z) (f : option stat_result) : Z :=
  match f with
  | Some st => total + st_size st
  | None => total
  end.

(** The two nested loops of [dir_size_bytes] over what [os.walk] yields. *)
Definition walk_total (items : list (list (option stat_result))) : Z :=
  fold_left (fun total files => fold_left add_file_size files total) items 0.

Definition tree_size (n : option node) : Z :=
  match n with
  | Some x => walk_total (os_walk x)
  | None => 0
  end.

(** [dir_size_bytes(path)]; the walk is read on one snapshot. *)
Definition dir_size_bytes (p : path) : IO Z :=
  observe (fun s => Ok (tree_size (lookup_path (fs s) p))).

(* ===================================================================== *)
(** * Active-download selector *)
(* ===================================================================== *)

Record ActiveDownload := {
  appid : string;
  name : string;
  state : string;
  download_dir : path;
  bytes_on_disk : Z
}.

(** [a < b] on floats *)
Definition Qlt_bool (a b : Q) : bool := negb (Qle_bool b a).

(** [candidates.sort(reverse=True, key=lambda x: x[0])]: a stable sort by
    decreasing key.  [insert_desc x l] puts [x], which stood before all of
    [l] in the list, in front of the first element whose key is not greater. *)
Fixpoint insert_desc (x : Q * path) (l : list (Q * path)) : list (Q * path) :=
  match l with
  | [] => [x]
  | y :: r => if Qlt_bool (fst x) (fst y) then y :: insert_desc x r else x :: l
  end.

Definition sort_desc (l : list (Q * path)) : list (Q * path) :=
  fold_right insert_desc [] l.

(** The body of the enumeration loop over [downloading.iterdir()]. *)
Definition enumerate_one (cands : list (Q * path)) (p : path) : IO (list (Q * path)) :=
  d <- path_is_dir p ;;
  if d && Str.isdigit (path_name p) then
    try_except (mtime <- path_stat_mtime p ;; ret (cands ++ [(mtime, p)])%list)
               (ret cands)
  else ret cands.

(** [info.get(name) or (AppID appid)]: an absent key and an empty value both
    give the label built from the identifier. *)
Definition display_name (info : gmap string string) (id : string) : string :=
  match info !! "name" with
  | Some n => if Str.is_empty n then "AppID " ++ id else n
  | None => "AppID " ++ id
  end.

Definition manifest_path (steamapps : path) (id : string) : path :=
  path_join steamapps ("appmanifest_" ++ id ++ ".acf").

(** The test of the scan loop; [or] and [<] evaluate from the left, so the
    clock and the second [stat] are read only when the size is not positive. *)
Definition candidate_test (size_b : Z) (app_dir : path) : IO bool :=
  if 0 <? size_b then ret true
  else
    t <- time_time ;;
    m <- path_stat_mtime app_dir ;;
    ret (Qlt_bool (t - m) (inject_Z (10 * 60))).

(** The loop over [candidates[:5]]. *)
Fixpoint scan (steamapps : path) (cs : list (Q * path)) : IO (option ActiveDownload) :=
  match cs with
  | [] => ret None
  | (_, app_dir) :: rest =>
      size_b <- dir_size_bytes app_dir ;;
      ok <- candidate_test size_b app_dir ;;
      if ok then
        let id := path_name app_dir in
        info <- parse_acf (manifest_path steamapps id) ;;
        ret (Some {| appid := id;
                     name := display_name info id;
                     state := "downloading";
                     download_dir := app_dir;
                     bytes_on_disk := size_b |})
      else scan steamapps rest
  end.

(** [find_active_download(steamapps)] *)
Definition find_active_download (steamapps : path) : IO (option ActiveDownload) :=
  let downloading := path_join steamapps "downloading" in
  ex <- path_exists downloading ;;
  if negb ex then ret None
  else
    ps <- path_iterdir downloading ;;
    candidates <- for_each enumerate_one ps [] ;;
    match candidates with
    | [] => ret None
    | _ => scan steamapps (firstn 5 (sort_desc candidates))
    end.

(* ===================================================================== *)
(** * Rate estimator: the polling loop of [main] *)
(* ===================================================================== *)

(** The two dictionaries [prev] and [prev_time]. *)
Record RateState := {
  prev : gmap string Z;
  prev_time : gmap string Q
}.

Definition empty_state : RateState := {| prev := ∅; prev_time := ∅ |}.

(** [max(a, b)] on floats: the first argument unless the second is greater. *)
Definition Qmax_py (a b : Q) : Q := if Qlt_bool a b then b else a.

(** What one round prints, before formatting. *)
Inductive report :=
| NoActive
| StatusLine (shown_name shown_appid status : string) (rate : Q) (temp : Z).

Definition last_b (st : RateState) (a : ActiveDownload) : Z :=
  default (bytes_on_disk a) (prev st !! appid a).

Definition last_t (interval : Z) (now : Q) (st : RateState) (a : ActiveDownload) : Q :=
  default (now - inject_Z interval)%Q (prev_time st !! appid a).

Definition dt (interval : Z) (now : Q) (st : RateState) (a : ActiveDownload) : Q :=
  Qmax_py 1 (now - last_t interval now st a).

Definition delta (st : RateState) (a : ActiveDownload) : Z :=
  Z.max 0 (bytes_on_disk a - last_b st a).

Definition rate (interval : Z) (now : Q) (st : RateState) (a : ActiveDownload) : Q :=
  (inject_Z (delta st a) / dt interval now st a)%Q.

Definition status (st : RateState) (a : ActiveDownload) : string :=
  if delta st a <? 256 * 1024 then "paused or idle" else "downloading".

(** The [if not active: ... else: ...] of the loop body. *)
Definition rate_step (interval : Z) (now : Q) (active : option ActiveDownload)
    (st : RateState) : report * RateState :=
  match active with
  | None => (NoActive, st)
  | Some a =>
      (StatusLine (name a) (appid a) (status st a) (rate interval now st a)
                  (bytes_on_disk a),
       {| prev := <[appid a := bytes_on_disk a]> (prev st);
          prev_time := <[appid a := now]> (prev_time st) |})
  end.

(** One round of the loop, up to the sleep.  [ts] is the clock read by
    [datetime.now()]; it only goes into the printed line. *)
Definition poll_round (steamapps : path) (interval : Z) (st : RateState)
  : IO (report * RateState) :=
  now <- time_time ;;
  active <- find_active_download steamapps ;;
  ts <- time_time ;;
  ret (rate_step interval now active st).

(** The most seconds that [time.sleep] converts to its signed 64-bit count
    of nanoseconds: the quotient of 2^63 - 1 by 10^9. *)
Definition sleep_max : Z := 9223372036.

(** [time.sleep(secs)] for an [int] (CPython 3.11): the conversion to
    nanoseconds raises [OverflowError] beyond [sleep_max] on either side,
    then a negative length raises [ValueError]; otherwise the world moves
    on and nothing is read. *)
Definition sleep (secs : Z) : IO unit :=
  if (secs <? - sleep_max) || (sleep_max <? secs) then raise OverflowError
  else if secs <? 0 then raise ValueError
  else observe (fun _ => Ok tt).

(** [for i in range(loops)]: [n] rounds are left, the reports are
    collected in the order they are printed. *)
Fixpoint rounds (steamapps : path) (interval : Z) (n : nat) (st : RateState)
  : IO (list report * RateState) :=
  match n with
  | O => ret ([], st)
  | S n' =>
      r <- poll_round steamapps interval st ;;
      _ <- match n' with O => ret tt | S _ => sleep interval end ;;
      rs <- rounds steamapps interval n' (snd r) ;;
      ret (fst r :: fst rs, snd rs)
  end.

(** The loop of [main] for [--minutes m --interval i]. *)
Definition monitor (steamapps : path) (minutes interval : Z) : IO (list report * RateState) :=
  rounds steamapps interval (Z.to_nat (Z.max 1 minutes)) empty_state.

(* ===================================================================== *)
(** * Formatting of sizes *)
(* ===================================================================== *)

(** [units] of [fmt_bytes]; the loop starts at the first one. *)
Definition units : list string := ["B"; "KB"; "MB"; "GB"; "TB"].

(** [float(n)] for an [int]: the integer itself below 2^53 in absolute
    value; beyond that the nearest number with a mantissa of 53 bits, a tie
    going to the even mantissa; [None] where the result would reach 2^1024
    and Python raises [OverflowError]. *)
Definition float_of_int (n : Z) : option Q :=
  let a := Z.abs n in
  if a <? 2 ^ 53 then Some (inject_Z n)
  else
    let e := Z.log2 a - 52 in
    let q := a / 2 ^ e in
    let r := a mod 2 ^ e in
    let h := 2 ^ (e - 1) in
    let q' := if (h <? r) || ((r =? h) && Z.odd q) then q + 1 else q in
    let v := q' * 2 ^ e in
    if 2 ^ 1024 <=? v then None else Some (inject_Z (Z.sgn n * v)).

(** The [while] loop of [fmt_bytes].  [u] is [units[i]] and [rest] the units
    after it, so that [i < len(units) - 1] reads: [rest] is not empty.  The
    quotient of a float that is at least 1024 by 1024 is exact. *)
Fixpoint scale_bytes (x : Q) (u : string) (rest : list string) : Q * string :=
  match rest with
  | [] => (x, u)
  | u' :: rest' =>
      if Qle_bool (inject_Z 1024) x then scale_bytes (x / inject_Z 1024) u' rest'
      else (x, u)
  end.

(** Rounding to the nearest integer, ties to the even one. *)
Definition round_half_even (q : Q) : Z :=
  let n := Qnum q in
  let d := Z.pos (Qden q) in
  let lo := n / d in
  match (2 * (n mod d)) ?= d with
  | Lt => lo
  | Gt => lo + 1
  | Eq => if Z.even lo then lo else lo + 1
  end.

(** An integer that is not negative, in decimal. *)
Definition decimal (z : Z) : string :=
  DecimalString.NilZero.string_of_uint (N.to_uint (Z.to_N z)).

(** The two digits after the point. *)
Definition two_digits (z : Z) : string :=
  if z <? 10 then "0" ++ decimal z else decimal z.

(** The format [.2f]: the value correctly rounded to two places, ties to
    even, with the sign of the value. *)
Definition format_2f (q : Q) : string :=
  let h := round_half_even (Qabs q * inject_Z 100) in
  (if Qlt_bool q 0 then "-" else "") ++ decimal (h / 100) ++ "." ++ two_digits (h mod 100).

(** [fmt_bytes(n)] *)
Definition fmt_bytes (n : Z) : outcome string :=
  match float_of_int n with
  | Some x0 =>
      let '(x, u) := scale_bytes x0 "B" (tl units) in
      Ok (format_2f x ++ " " ++ u)
  | None => Raise OverflowError
  end.

(** [human_rate(bytes_per_sec)] *)
Definition human_rate (bytes_per_sec : Q) : string :=
  let mb_s := (bytes_per_sec / inject_Z (1024 * 1024))%Q in
  let mbit_s := ((bytes_per_sec * inject_Z 8) / inject_Z (1024 * 1024))%Q in
  format_2f mb_s ++ " MB/s (" ++ format_2f mbit_s ++ " Mbit/s)".

(* ===================================================================== *)
(** * Start-up: the registry lookup and [main] *)
(* ===================================================================== *)

(** The registry hives the program reads. *)
Inductive hive := HKEY_CURRENT_USER | HKEY_LOCAL_MACHINE.

(** What [QueryValueEx] gives: a string, or data of another type. *)
Inductive reg_data :=
| RegString (s : string)
| RegOther.

(** The machine the program runs on: [os.name == nt], the registry (a
    missing key or value is [None], where [OpenKey] or [QueryValueEx]
    raise), the path that [Path(v).expanduser()] gives for a string ([None]
    where it raises), and [sys.executable]. *)
Record Host := {
  IS_WINDOWS : bool;
  registry : hive -> string -> string -> option reg_data;
  expanduser : string -> option path;
  executable : string
}.

(** [_reg_get_value(root, path, name)] *)
Definition _reg_get_value (h : Host) (root : hive) (key name : string) : option string :=
  match registry h root key name with
  | Some (RegString val) => if Str.is_empty val then None else Some val
  | Some RegOther => None
  | None => None
  end.

(** [candidates] of [find_steam_path], in the order they are tried. *)
Definition steam_registry_candidates : list (hive * string * string) :=
  [(HKEY_CURRENT_USER, "Software\Valve\Steam", "SteamPath");
   (HKEY_LOCAL_MACHINE, "SOFTWARE\WOW6432Node\Valve\Steam", "InstallPath");
   (HKEY_LOCAL_MACHINE, "SOFTWARE\Valve\Steam", "InstallPath")].

(** The loop of [find_steam_path] over the candidates.  The loop stands in
    a [try] whose handler passes on to [return None]: where [expanduser]
    raises, the search is over and the result is [None]. *)
Fixpoint try_candidates (h : Host) (cs : list (hive * string * string))
  : IO (option path) :=
  match cs with
  | [] => ret None
  | (root, key, name) :: rest =>
      match _reg_get_value h root key name with
      | Some v =>
          match expanduser h v with
          | Some p =>
              ex <- path_exists p ;;
              if ex then ret (Some p) else try_candidates h rest
          | None => ret None
          end
      | None => try_candidates h rest
      end
  end.

(** [find_steam_path()] *)
Definition find_steam_path (h : Host) : IO (option path) :=
  if negb (IS_WINDOWS h) then ret None
  else try_candidates h steam_registry_candidates.

(** [detach_to_background(argv)]: the command line handed to [Popen], if
    any. *)
Definition detach_to_background (h : Host) (argv : list string) : option (list string) :=
  if negb (IS_WINDOWS h) then None else Some argv.

(** The parsed arguments. *)
Record Args := {
  minutes : Z;
  interval : Z;
  background : bool
}.

(** What [main] prints. *)
Inductive printed :=
| SteamNotFound
| SteamappsNotFound (steamapps : path)
| SteamFound (steam_path : path)
| Monitoring
| Round (r : report).

(** What a run of [main] leaves: what it printed, the process it started
    and its return value. *)
Record Run := {
  stdout : list printed;
  spawned : option (list string);
  exit_code : Z
}.

(** [main()], from the parsed arguments on; [argv] is [sys.argv].  The
    lines of the rounds are printed as the loop goes, so a loop that raises
    returns no [Run]. *)
Definition main (h : Host) (argv : list string) (args : Args) : IO Run :=
  if background args then
    let new_argv :=
      executable h :: List.filter (fun a => negb (String.eqb a "--background")) argv in
    ret {| stdout := []; spawned := detach_to_background h new_argv; exit_code := 0 |}
  else
    steam_path <- find_steam_path h ;;
    match steam_path with
    | None => ret {| stdout := [SteamNotFound]; spawned := None; exit_code := 2 |}
    | Some sp =>
        let steamapps := path_join sp "steamapps" in
        ex <- path_exists steamapps ;;
        if negb ex then
          ret {| stdout := [SteamappsNotFound steamapps]; spawned := None; exit_code := 3 |}
        else
          _ <- time_time ;;
          out <- monitor steamapps (minutes args) (interval args) ;;
          ret {| stdout := SteamFound sp :: Monitoring :: map Round (fst out);
                 spawned := None; exit_code := 0 |}
    end.

(* ===================================================================== *)
(** * The components as the specification words them *)
(* ===================================================================== *)

(** ** The parser as the specification words it

    The nesting depth goes up on a line that is an opening brace, down on a
    line that is a closing brace, and never below zero.  A line is recorded
    when it matches the pattern while the depth is at least 1. *)

(** The depth after a line, from the depth before it. *)
Definition depth_step (d : nat) (raw : string) : nat :=
  if String.eqb (Str.strip raw) "{" then S d
  else if String.eqb (Str.strip raw) "}" then Nat.pred d
  else d.

(** The depth after a run of lines that starts at depth [d]. *)
Definition depth_after (d : nat) (lines : list string) : nat :=
  fold_left depth_step lines d.

(** The pairs matched at depth 1 or more, in the order of the lines; [d] is
    the depth before the first line. *)
Fixpoint recorded_pairs (d : nat) (lines : list string) : list (string * string) :=
  match lines with
  | [] => []
  | raw :: r =>
      match acf_kv_match (Str.strip raw) with
      | Some kv => if (1 <=? d)%nat then kv :: recorded_pairs (depth_step d raw) r
                   else recorded_pairs (depth_step d raw) r
      | None => recorded_pairs (depth_step d raw) r
      end
  end.

(** The value of the first pair with key [k]. *)
Fixpoint first_value (k : string) (l : list (string * string)) : option string :=
  match l with
  | [] => None
  | (k', v) :: r => if String.eqb k' k then Some v else first_value k r
  end.

(** The record of a manifest in a snapshot: what the parser gives when
    nothing changes while it runs. *)
Definition manifest_record (s : snapshot) (p : path) : gmap string string :=
  match lookup_path (fs s) p with
  | Some (File _ (Some t)) => parse_acf_text t
  | _ => ∅
  end.

(** ** The scanner as the specification words it

    The files reachable from a directory by recursive descent: its own
    files, and the files reachable from each of its directories.  Nothing is
    reachable through a directory that cannot be listed. *)

Fixpoint reachable_files (n : node) : list (option stat_result) :=
  match n with
  | File _ _ => []
  | Dir _ false _ => []
  | Dir _ true es =>
      flat_map (fun e : string * node =>
                  match e with
                  | (_, File st _) => [st]
                  | (_, (Dir _ _ _) as d) => reachable_files d
                  end) es
  end.

(** The size a file adds: its [st_size], or zero when [stat] fails on it. *)
Definition size_or_zero (f : option stat_result) : Z :=
  match f with
  | Some st => st_size st
  | None => 0
  end.

(** The sum of the sizes of a list of files. *)
Definition size_sum (fs : list (option stat_result)) : Z :=
  fold_right (fun f acc => size_or_zero f + acc) 0 fs.

(** ** The selector on a snapshot, as the specification words it *)

(** The candidate that an entry of the downloading directory gives: a
    directory with a numeric name, with its modification time. *)
Definition candidate_of (s : snapshot) (p : path) : list (Q * path) :=
  match lookup_path (fs s) p with
  | Some (Dir m _ _) => if Str.isdigit (path_name p) then [(m, p)] else []
  | _ => []
  end.

(** The candidates among the entries [ps], in the order of the listing. *)
Definition candidates_in (s : snapshot) (ps : list path) : list (Q * path) :=
  flat_map (candidate_of s) ps.

(** The test on a candidate: its size is greater than zero, or its last
    modification is less than ten minutes old. *)
Definition accepts (s : snapshot) (c : Q * path) : bool :=
  (0 <? tree_size (lookup_path (fs s) (snd c)))
  || Qlt_bool (wall_clock s - fst c) (inject_Z 600).

(** The verdict for an accepted candidate. *)
Definition verdict (s : snapshot) (steamapps : path) (c : Q * path) : ActiveDownload :=
  let id := path_name (snd c) in
  {| appid := id;
     name := display_name (manifest_record s (manifest_path steamapps id)) id;
     state := "downloading";
     download_dir := snd c;
     bytes_on_disk := tree_size (lookup_path (fs s) (snd c)) |}.

(** A candidate is listed in a snapshot when its path is a directory there
    with the modification time recorded for it. *)
Definition listed (s : snapshot) (c : Q * path) : Prop :=
  exists l es, lookup_path (fs s) (snd c) = Some (Dir (fst c) l es).

(** Decreasing modification time. *)
Definition newer_first (a b : Q * path) : Prop := (fst b <= fst a)%Q.

(* ===================================================================== *)
(** * Notions for the further properties *)
(* ===================================================================== *)

(** ** The loop of rounds *)

(** The identifiers that a list of reports names, in order. *)
Fixpoint reported_ids (rs : list report) : list string :=
  match rs with
  | [] => []
  | NoActive :: r => reported_ids r
  | StatusLine _ id _ _ _ :: r => id :: reported_ids r
  end.

(** The size on disk of package [id] in the tree [t]. *)
Definition size_on_disk (t : node) (steamapps : path) (id : string) : Z :=
  tree_size (lookup_path t (path_join (path_join steamapps "downloading") id)).

(** What the dictionary of sizes holds is the size in the tree. *)
Definition sizes_known (t : node) (steamapps : path) (st : RateState) : Prop :=
  forall id size, prev st !! id = Some size -> size = size_on_disk t steamapps id.

(** A report that shows no progress: nothing is active, or the package
    shown is paused or idle at rate 0 with the size it has in the tree. *)
Definition still_report (t : node) (steamapps : path) (r : report) : Prop :=
  match r with
  | NoActive => True
  | StatusLine _ id st q size =>
      st = "paused or idle" /\ (q == 0)%Q /\ size = size_on_disk t steamapps id
  end.

(** ** The size of a directory, entry by entry *)

(** What one entry of a directory adds to its size: the size of a file (zero
    when [stat] fails on it), the size of a directory. *)
Definition entry_size (e : string * node) : Z :=
  match snd e with
  | File st _ => size_or_zero st
  | (Dir _ _ _) as d => tree_size (Some d)
  end.

Definition entries_size (es : list (string * node)) : Z :=
  fold_right (fun e acc => entry_size e + acc) 0 es.

(** No file below the node has a negative size. *)
Definition sizes_nonneg (n : node) : Prop :=
  Forall (fun f => 0 <= size_or_zero f) (reachable_files n).

(** ** The lines of a manifest *)

(** A string of white space only. *)
Definition spaces (s : string) : Prop := Str.all_chars Str.isspace s = true.

(** A string without a double quote. *)
Definition no_quote (s : string) : Prop :=
  Str.all_chars (fun c => negb (Str.is_quote c)) s = true.

(** The double quote. *)
Definition quote : string := String (ascii_of_nat 34) EmptyString.

(** A line that the loop passes over: blank, a comment, or neither a brace
    nor a match of the pattern. *)
Definition passed_over (raw : string) : bool :=
  let line := Str.strip raw in
  Str.is_empty line || Str.startswith line "//"
  || (negb (String.eqb line "{") && negb (String.eqb line "}")
      && match acf_kv_match line with Some _ => false | None => true end).

(** ** The unit of a size *)

(** The index in [units] of the unit for [n] bytes: the number of times
    1024 goes into [n], at most 4. *)
Definition unit_index (n : Z) : nat :=
  if n <? 1024 then 0%nat
  else if n <? 1024 ^ 2 then 1%nat
  else if n <? 1024 ^ 3 then 2%nat
  else if n <? 1024 ^ 4 then 3%nat
  else 4%nat.

(** ** Line endings *)

(** A string without a line boundary. *)
Definition no_break (l : string) : Prop :=
  Str.all_chars (fun c => negb (Str.is_linebreak c)) l = true.

(** LF, and CR LF. *)
Definition lf : string := String (ascii_of_nat 10) EmptyString.
Definition crlf : string := String (ascii_of_nat 13) lf.

(** The text whose lines are [ls], each one ended by [sep]. *)
Fixpoint unlines (sep : string) (ls : list string) : string :=
  match ls with
  | [] => EmptyString
  | l :: r => l ++ sep ++ unlines sep r
  end.

(* ===================================================================== *)
(** * Devices for the proofs *)
(* ===================================================================== *)

(** Induction on a tree, with the hypothesis for every entry of a
    directory. *)
Definition node_ind_entries (P : node -> Prop)
    (Hfile : forall st t, P (File st t))
    (Hdir : forall m l es, Forall (fun e => P (snd e)) es -> P (Dir m l es))
  : forall n, P n :=
  fix F (n : node) : P n :=
    match n with
    | File st t => Hfile st t
    | Dir m l es =>
        Hdir m l es
          ((fix G (es : list (string * node)) : Forall (fun e => P (snd e)) es :=
              match es with
              | [] => @List.Forall_nil _ (fun e => P (snd e))
              | e :: r =>
                  @List.Forall_cons _ (fun e => P (snd e)) e r
                    (match e as e0 return P (snd e0) with (_, x) => F x end)
                    (G r)
              end) es)
    end.

(** The outer loop of [dir_size_bytes] started from any total. *)
Definition walk_total_from (total : Z) (items : list (list (option stat_result))) : Z :=
  fold_left (fun total files => fold_left add_file_size files total) items total.

(* ===================================================================== *)
(** * Sample inputs *)
(* ===================================================================== *)

(** A line feed and a double quote. *)
Definition nl : string := String (ascii_of_nat 10) EmptyString.
Definition dq : string := String (ascii_of_nat 34) EmptyString.

(** A manifest line: quoted key, two spaces, quoted value. *)
Definition kv_line (k v : string) : string := dq ++ k ++ dq ++ "  " ++ dq ++ v ++ dq.

(** A manifest with a nested block that repeats the name key, and a pair
    after the last closing brace. *)
Definition sample_acf : string :=
  dq ++ "AppState" ++ dq ++ nl ++
  "{" ++ nl ++
  "  " ++ kv_line "appid" "123" ++ nl ++
  "  " ++ kv_line "name" "Portal" ++ nl ++
  "  // a comment" ++ nl ++
  "  " ++ dq ++ "UserConfig" ++ dq ++ nl ++
  "  {" ++ nl ++
  "    " ++ kv_line "name" "inner" ++ nl ++
  "  }" ++ nl ++
  "}" ++ nl ++
  kv_line "late" "x" ++ nl.

(** The smallest world: an empty root directory at time 0. *)
Definition sample_snapshot_0 : snapshot :=
  {| fs := Dir 0 true []; wall_clock := 0 |}.

(** Package 123 seen with 1,000,000 bytes. *)
Definition first_seen_123 : ActiveDownload :=
  {| appid := "123"; name := "AppID 123"; state := "downloading";
     download_dir := ["steamapps"; "downloading"; "123"];
     bytes_on_disk := 1000000 |}.

(** The world that shows the tree [t] at the clock reading [c0] and then at
    each of the readings [clocks]. *)
Definition ticking (t : node) (c0 : Q) (clocks : list Q) : World :=
  {| current := {| fs := t; wall_clock := c0 |};
     upcoming := map (fun c => {| fs := t; wall_clock := c |}) clocks |}.

(** A file of the given size, without text. *)
Definition plain_file (size : Z) : node :=
  File (Some {| st_mtime := 0; st_size := size |}) None.

(** A readable file with the given text. *)
Definition text_file (t : string) : node :=
  File (Some {| st_mtime := 0; st_size := Z.of_nat (String.length t) |}) (Some t).

(** A tree with a stale empty candidate, an older candidate that holds 5000
    bytes and has a manifest, and an entry whose name is not numeric. *)
Definition sample_downloading : list (string * node) :=
  [("1", Dir 900 true []);
   ("2", Dir 800 true [("chunk", plain_file 5000)]);
   ("abc", Dir 950 true [("chunk", plain_file 7)])].

Definition sample_snapshot : snapshot :=
  {| fs := Dir 0 true
             [("steamapps",
               Dir 0 true
                 [("downloading", Dir 0 true sample_downloading);
                  ("appmanifest_2.acf", text_file sample_acf)])];
     wall_clock := 10000 |}.

(** The same tree seen while the clock runs: one second goes by between
    one system call and the next. *)
Definition running_sample : World :=
  ticking (fs sample_snapshot) 10000
    (map (fun k => inject_Z (10000 + Z.of_nat k)) (seq 1 60)).

(** The verdict of the selector on that tree. *)
Definition verdict_2 : ActiveDownload :=
  {| appid := "2"; name := "Portal"; state := "downloading";
     download_dir := ["steamapps"; "downloading"; "2"];
     bytes_on_disk := 5000 |}.

(** A candidate whose manifest has a name key with an empty value. *)
Definition empty_name_acf : string :=
  dq ++ "AppState" ++ dq ++ nl ++
  "{" ++ nl ++
  "  " ++ kv_line "appid" "123" ++ nl ++
  "  " ++ kv_line "name" "" ++ nl ++
  "}" ++ nl.

Definition empty_name_snapshot : snapshot :=
  {| fs := Dir 0 true
             [("steamapps",
               Dir 0 true
                 [("downloading",
                   Dir 0 true [("123", Dir 100 true [("chunk", plain_file 5000)])]);
                  ("appmanifest_123.acf", text_file empty_name_acf)])];
     wall_clock := 1000 |}.

(** A candidate without a manifest. *)
Definition no_manifest_snapshot : snapshot :=
  {| fs := Dir 0 true
             [("steamapps",
               Dir 0 true
                 [("downloading", Dir 0 true [("7", Dir 880 true [])])])];
     wall_clock := 1000 |}.

(** The verdicts of the selector on the two snapshots above. *)
Definition verdict_123 : ActiveDownload :=
  {| appid := "123"; name := "AppID 123"; state := "downloading";
     download_dir := ["steamapps"; "downloading"; "123"];
     bytes_on_disk := 5000 |}.

Definition verdict_7 : ActiveDownload :=
  {| appid := "7"; name := "AppID 7"; state := "downloading";
     download_dir := ["steamapps"; "downloading"; "7"];
     bytes_on_disk := 0 |}.

(** Candidate 9 is an old empty directory; in the second tree it is gone. *)
Definition before_removal : snapshot :=
  {| fs := Dir 0 true
             [("steamapps",
               Dir 0 true [("downloading", Dir 0 true [("9", Dir 100 true [])])])];
     wall_clock := 10000 |}.

Definition after_removal : snapshot :=
  {| fs := Dir 0 true [("steamapps", Dir 0 true [("downloading", Dir 0 true [])])];
     wall_clock := 10000 |}.

(** The directory is removed after [calls] further system calls. *)
Definition removed_after (calls : nat) : World :=
  {| current := before_removal;
     upcoming := (repeat before_removal calls ++ [after_removal])%list |}.

(** Five stale empty candidates, and a sixth, the oldest, with 5000 bytes. *)
Definition six_candidates : list (string * node) :=
  [("1", Dir 905 true []); ("2", Dir 904 true []); ("3", Dir 903 true []);
   ("4", Dir 902 true []); ("5", Dir 901 true []);
   ("6", Dir 100 true [("chunk", plain_file 5000)])].

Definition snapshot_of_downloading (es : list (string * node)) : snapshot :=
  {| fs := Dir 0 true [("steamapps", Dir 0 true [("downloading", Dir 0 true es)])];
     wall_clock := 10000 |}.

(** The downloading entry is a file, not a directory. *)
Definition downloading_is_a_file : snapshot :=
  {| fs := Dir 0 true [("steamapps", Dir 0 true [("downloading", plain_file 0)])];
     wall_clock := 10000 |}.

(** The downloading entry is a directory that cannot be listed. *)
Definition unlistable_downloading : snapshot :=
  {| fs := Dir 0 true
             [("steamapps",
               Dir 0 true [("downloading", Dir 0 false [("1", Dir 900 true [])])])];
     wall_clock := 10000 |}.

(** Package 123 seen again with 2,500,000 bytes. *)
Definition grown_123 : ActiveDownload :=
  {| appid := "123"; name := "AppID 123"; state := "downloading";
     download_dir := ["steamapps"; "downloading"; "123"];
     bytes_on_disk := 2500000 |}.

(** A directory with two files, a directory within it, one that cannot be
    listed, and a file whose [stat] fails. *)
Definition sample_tree_entries : list (string * node) :=
  [("a", plain_file 100);
   ("sub", Dir 5 true [("b", plain_file 200); ("c", plain_file 300)]);
   ("locked", Dir 6 false [("d", plain_file 4000)]);
   ("dangling", File None None)].

(** Package 123 seen again with 100,000 bytes more. *)
Definition slow_123 : ActiveDownload :=
  {| appid := "123"; name := "AppID 123"; state := "downloading";
     download_dir := ["steamapps"; "downloading"; "123"];
     bytes_on_disk := 1100000 |}.

(** A Windows machine whose registry names the Steam directory under the
    first key only, and a tree that holds it with an empty downloading
    directory. *)
Definition sample_host : Host :=
  {| IS_WINDOWS := true;
     registry := fun root key name =>
       match root with
       | HKEY_CURRENT_USER =>
           if String.eqb key "Software\Valve\Steam" && String.eqb name "SteamPath"
           then Some (RegString "c:/steam") else None
       | HKEY_LOCAL_MACHINE => None
       end;
     expanduser := fun v => if String.eqb v "c:/steam" then Some ["steam"] else None;
     executable := "python.exe" |}.

Definition steam_snapshot : snapshot :=
  {| fs := Dir 0 true
             [("steam",
               Dir 0 true [("steamapps", Dir 0 true [("downloading", Dir 0 true [])])])];
     wall_clock := 500 |}.

(** A machine that is not Windows. *)
Definition posix_host : Host :=
  {| IS_WINDOWS := false;
     registry := fun _ _ _ => None;
     expanduser := fun _ => None;
     executable := "python3" |}.

(* ===================================================================== *)
(** * Sample runs *)
(* ===================================================================== *)

Example parse_sample_name : parse_acf_text sample_acf !! "name" = Some "Portal".
Proof. vm_compute. reflexivity. Qed.

Example parse_sample_late : parse_acf_text sample_acf !! "late" = None.
Proof. vm_compute. reflexivity. Qed.

Example splitlines_crlf :
  Str.splitlines ("a" ++ String (ascii_of_nat 13) nl ++ nl ++ "b") = ["a"; ""; "b"].
Proof. reflexivity. Qed.

Example kv_match_empty_value : acf_kv_match (kv_line "name" "") = Some ("name", "").
Proof. reflexivity. Qed.

Example kv_match_empty_key : acf_kv_match (kv_line "" "x") = None.
Proof. reflexivity. Qed.

(** Beyond 2^53 a size is rounded to a float before it is scaled, beyond the
    range of floats the conversion raises, and a negative size keeps the
    unit B. *)
Example fmt_bytes_large_and_negative :
  fmt_bytes 9007611571601407 = Ok "8192.38 TB" /\
  fmt_bytes (10 ^ 400) = Raise OverflowError /\
  fmt_bytes (2 ^ 1024 - 2 ^ 970) = Raise OverflowError /\
  fmt_bytes (- 1536) = Ok "-1536.00 B".
Proof. repeat split; vm_compute; reflexivity. Qed.

(** The lengths that [time.sleep] refuses. *)
Example sleep_refused_lengths :
  fst (sleep (-1) (frozen sample_snapshot_0)) = Raise ValueError /\
  fst (sleep (- sleep_max) (frozen sample_snapshot_0)) = Raise ValueError /\
  fst (sleep (- sleep_max - 1) (frozen sample_snapshot_0)) = Raise OverflowError /\
  fst (sleep (sleep_max + 1) (frozen sample_snapshot_0)) = Raise OverflowError /\
  fst (sleep sleep_max (frozen sample_snapshot_0)) = Ok tt.
Proof. repeat split; vm_compute; reflexivity. Qed.

(** A dangling link is listed by its directory and does not resolve. *)
Example dangling_link_does_not_resolve :
  lookup_path (Dir 0 true [("link", File None None)]) ["link"] = None /\
  fst (path_exists ["link"] (frozen {| fs := Dir 0 true [("link", File None None)];
                                       wall_clock := 0 |})) = Ok false /\
  tree_size (Some (Dir 0 true [("link", File None None); ("f", plain_file 7)])) = 7.
Proof. repeat split; vm_compute; reflexivity. Qed.

(** Only the five most recent candidates are examined: the sixth is not
    reached, and it is chosen once one of the five is gone. *)
Example sixth_candidate_not_examined :
  fst (find_active_download ["steamapps"]
         (frozen (snapshot_of_downloading six_candidates))) = Ok None /\
  option_map appid
    (match fst (find_active_download ["steamapps"]
                  (frozen (snapshot_of_downloading (tl six_candidates)))) with
     | Ok r => r
     | Raise _ => None
     end) = Some "6".
Proof. split; vm_compute; reflexivity. Qed.

(* ===================================================================== *)
(** * Properties of the rate estimator *)
(* ===================================================================== *)

Lemma Qlt_bool_iff (a b : Q) : Qlt_bool a b = true <-> (a < b)%Q.
Proof.
  unfold Qlt_bool. rewrite negb_true_iff, <- not_true_iff_false, Qle_bool_iff.
  split; [apply Qnot_le_lt | apply Qlt_not_le].
Qed.

Lemma Qmax_py_eq (a b b' : Q) : (b == b')%Q -> (Qmax_py a b == Qmax_py a b')%Q.
Proof.
  intros E. unfold Qmax_py, Qlt_bool. rewrite E.
  destruct (Qle_bool b' a); [reflexivity | exact E].
Qed.

Lemma Qmax_py_ge_1 (b : Q) : (1 <= Qmax_py 1 b)%Q.
Proof.
  unfold Qmax_py. destruct (Qlt_bool 1 b) eqn:E.
  - apply Qlt_le_weak, Qlt_bool_iff, E.
  - apply Qle_refl.
Qed.

Section RateEstimator.

Variables (interval : Z) (now : Q).

Lemma dt_ge_1 (st : RateState) (a : ActiveDownload) : (1 <= dt interval now st a)%Q.
Proof. apply Qmax_py_ge_1. Qed.

Lemma rate_step_some (st : RateState) (a : ActiveDownload) :
  rate_step interval now (Some a) st =
  (StatusLine (name a) (appid a) (status st a) (rate interval now st a) (bytes_on_disk a),
   {| prev := <[appid a := bytes_on_disk a]> (prev st);
      prev_time := <[appid a := now]> (prev_time st) |}).
Proof. reflexivity. Qed.

End RateEstimator.

(** C1, as stated, fails: package 123 has no entry in the state, its size is
    1,000,000 and the interval is 60, and the rate reported is 0, which is
    farther than 16,666 from 1,000,000/60. *)
Lemma first_observation_rate_is_not_size_over_interval :
  prev empty_state !! "123" = None /\
  prev_time empty_state !! "123" = None /\
  (rate 60 1000 empty_state first_seen_123 == 0)%Q /\
  (16666 < Qabs (rate 60 1000 empty_state first_seen_123 - (1000000 # 60)))%Q.
Proof. repeat split. Qed.

(** C1, amended: on the first observation of a package (no entry in either
    dictionary) the previous size defaults to the current size, so the delta
    is 0, the rate is 0 and the status is paused or idle; the elapsed time
    is one polling interval, floored at 1. *)
Theorem first_observation_rate_zero (interval : Z) (now : Q) (st : RateState)
    (a : ActiveDownload) :
  prev st !! appid a = None ->
  prev_time st !! appid a = None ->
  delta st a = 0 /\
  (dt interval now st a == Qmax_py 1 (inject_Z interval))%Q /\
  (rate interval now st a == 0)%Q /\
  status st a = "paused or idle".
Proof.
  intros Hp Ht.
  assert (Hd : delta st a = 0).
  { unfold delta, last_b. rewrite Hp. simpl. lia. }
  split; [exact Hd|]. split; [|split].
  - unfold dt, last_t. rewrite Ht. simpl. apply Qmax_py_eq. ring.
  - unfold rate. rewrite Hd. unfold Qdiv. apply Qmult_0_l.
  - unfold status. rewrite Hd. reflexivity.
Qed.

Lemma first_observation_rate_zero_witness :
  delta empty_state first_seen_123 = 0 /\
  (dt 60 1000 empty_state first_seen_123 == Qmax_py 1 (inject_Z 60))%Q /\
  (rate 60 1000 empty_state first_seen_123 == 0)%Q /\
  status empty_state first_seen_123 = "paused or idle".
Proof.
  apply (first_observation_rate_zero 60 1000 empty_state first_seen_123);
    reflexivity.
Defined.

(** C5: in a round with an active download the delta is
    max(0, current size - previous size), so it is never negative and it is 0
    when the size went down; the status printed is paused or idle exactly
    when the delta is below 262144, and downloading otherwise; the rate
    printed is that delta over the elapsed time. *)
Theorem delta_clamped_and_classified (interval : Z) (now : Q) (st : RateState)
    (a : ActiveDownload) :
  let previous := default (bytes_on_disk a) (prev st !! appid a) in
  let d := Z.max 0 (bytes_on_disk a - previous) in
  0 <= d /\
  (bytes_on_disk a <= previous -> d = 0) /\
  (previous <= bytes_on_disk a -> d = bytes_on_disk a - previous) /\
  fst (rate_step interval now (Some a) st) =
    StatusLine (name a) (appid a)
      (if decide (d < 262144) then "paused or idle" else "downloading")
      (inject_Z d / dt interval now st a)%Q
      (bytes_on_disk a).
Proof.
  intros previous d. repeat split; try lia.
  rewrite rate_step_some. simpl. unfold status, rate, delta, last_b.
  fold previous. fold d.
  destruct (Z.ltb_spec d (256 * 1024)); case_decide; try lia; reflexivity.
Qed.

(** C9: a round stores according to what the selector returned for it.
    When the selector returns no download the round reports that and leaves
    both dictionaries as they were.  When it returns a download, the entries
    of every other package are kept in both dictionaries and the entry of
    the returned package becomes (its size on disk, the time read at the
    start of the round), once.  When the selector raises, so does the round,
    and no state comes back. *)
Theorem rate_state_frame (steamapps : path) (interval : Z) (st : RateState) (w : World) :
  (forall now, rate_step interval now None st = (NoActive, st)) /\
  (forall now a,
     let st' := snd (rate_step interval now (Some a) st) in
     (forall k, k <> appid a ->
        prev st' !! k = prev st !! k /\ prev_time st' !! k = prev_time st !! k) /\
     prev st' !! appid a = Some (bytes_on_disk a) /\
     prev_time st' !! appid a = Some now) /\
  match find_active_download steamapps (advance w) with
  | (Ok None, w1) =>
      poll_round steamapps interval st w = (Ok (NoActive, st), advance w1)
  | (Ok (Some a), w1) =>
      exists r st',
        poll_round steamapps interval st w = (Ok (r, st'), advance w1) /\
        (forall k, k <> appid a ->
           prev st' !! k = prev st !! k /\ prev_time st' !! k = prev_time st !! k) /\
        prev st' !! appid a = Some (bytes_on_disk a) /\
        prev_time st' !! appid a = Some (wall_clock (current w))
  | (Raise e, w1) =>
      poll_round steamapps interval st w = (Raise e, w1)
  end.
Proof.
  assert (Hstep : forall now a,
     let st' := snd (rate_step interval now (Some a) st) in
     (forall k, k <> appid a ->
        prev st' !! k = prev st !! k /\ prev_time st' !! k = prev_time st !! k) /\
     prev st' !! appid a = Some (bytes_on_disk a) /\
     prev_time st' !! appid a = Some now).
  { intros now a. cbn [rate_step snd prev prev_time]. split; [|split].
    - intros k Hk. split; apply lookup_insert_ne; congruence.
    - apply lookup_insert_eq.
    - apply lookup_insert_eq. }
  split; [reflexivity|]. split; [exact Hstep|].
  unfold poll_round, bind, time_time, observe, ret. cbn beta iota.
  destruct (find_active_download steamapps (advance w)) as [[[a|]|e] w1];
    [| reflexivity | reflexivity].
  eexists _, _. split; [reflexivity|].
  apply (Hstep (wall_clock (current w)) a).
Qed.

(* ===================================================================== *)
(** * Properties of the manifest parser *)
(* ===================================================================== *)

(** ** The loop refines it *)

Lemma skipped_line_plain (line : string) :
  Str.is_empty line || Str.startswith line "//" = true ->
  String.eqb line "{" = false /\ String.eqb line "}" = false /\
  acf_kv_match line = None.
Proof.
  destruct line as [|c rest]; [intros _; repeat split|].
  cbn [Str.is_empty Str.startswith orb].
  destruct (Ascii.eqb_spec "/" c) as [<-|]; [|discriminate].
  intros _. repeat split.
Qed.

Lemma brace_line_plain (line : string) :
  line = "{" \/ line = "}" -> acf_kv_match line = None.
Proof. intros [-> | ->]; reflexivity. Qed.

Lemma acf_line_spec (stack : list string) (data : gmap string string) (raw : string) :
  exists stack',
    acf_line (stack, data) raw =
      (stack',
       match acf_kv_match (Str.strip raw) with
       | Some (k, v) => if (1 <=? length stack)%nat then setdefault k v data else data
       | None => data
       end) /\
    length stack' = depth_step (length stack) raw.
Proof.
  unfold acf_line, depth_step. set (line := Str.strip raw).
  destruct (Str.is_empty line || Str.startswith line "//") eqn:Hskip.
  - destruct (skipped_line_plain line Hskip) as (-> & -> & ->). eauto.
  - destruct (String.eqb_spec line "{") as [E|_].
    + rewrite (brace_line_plain line (or_introl E)). eexists; split; reflexivity.
    + destruct (String.eqb_spec line "}") as [E|_].
      * rewrite (brace_line_plain line (or_intror E)).
        eexists; split; [reflexivity|]. destruct stack; reflexivity.
      * destruct (acf_kv_match line) as [[k v]|]; [|eauto].
        destruct (1 <=? length stack)%nat; eauto.
Qed.

Lemma setdefault_lookup (k v k' : string) (data : gmap string string) :
  setdefault k v data !! k' =
  match data !! k' with
  | Some x => Some x
  | None => if String.eqb k k' then Some v else None
  end.
Proof.
  unfold setdefault. destruct (String.eqb_spec k k') as [<-|Hne].
  - destruct (data !! k) eqn:E; [by rewrite E | by rewrite lookup_insert_eq].
  - destruct (data !! k) eqn:E; [by destruct (data !! k')|].
    rewrite lookup_insert_ne by done. by destruct (data !! k').
Qed.

Lemma acf_fold_spec (lines : list string) :
  forall (stack : list string) (data : gmap string string),
    length (fst (fold_left acf_line lines (stack, data))) =
      depth_after (length stack) lines /\
    forall k,
      snd (fold_left acf_line lines (stack, data)) !! k =
      match data !! k with
      | Some x => Some x
      | None => first_value k (recorded_pairs (length stack) lines)
      end.
Proof.
  induction lines as [|raw r IH]; intros stack data.
  - split; [reflexivity|]. intros k. simpl. by destruct (data !! k).
  - destruct (acf_line_spec stack data raw) as (stack' & Hstep & Hlen).
    cbn [fold_left]. rewrite Hstep.
    destruct (IH stack'
      (match acf_kv_match (Str.strip raw) with
       | Some (k, v) => if (1 <=? length stack)%nat then setdefault k v data else data
       | None => data
       end)) as [IHd IHm].
    split.
    + rewrite IHd, Hlen. reflexivity.
    + intros k. rewrite IHm, Hlen. cbn [recorded_pairs].
      destruct (acf_kv_match (Str.strip raw)) as [[k0 v0]|]; [|reflexivity].
      destruct (1 <=? length stack)%nat; [|reflexivity].
      rewrite setdefault_lookup. cbn [first_value].
      destruct (data !! k); [reflexivity|].
      destruct (String.eqb k0 k); reflexivity.
Qed.

Lemma parse_acf_text_first_value (text k : string) :
  parse_acf_text text !! k = first_value k (recorded_pairs 0 (Str.splitlines text)).
Proof.
  unfold parse_acf_text, acf_loop.
  destruct (acf_fold_spec (Str.splitlines text) [] ∅) as [_ H].
  rewrite H, lookup_empty. reflexivity.
Qed.

Lemma depth_after_app (d : nat) (l1 l2 : list string) :
  depth_after d (l1 ++ l2) = depth_after (depth_after d l1) l2.
Proof. apply fold_left_app. Qed.

(** A pair is in the trace exactly when some line matched it at depth 1 or
    more. *)
Lemma recorded_pairs_In (k v : string) (lines : list string) :
  forall d,
    In (k, v) (recorded_pairs d lines) <->
    exists pre raw post,
      lines = (pre ++ raw :: post)%list /\
      acf_kv_match (Str.strip raw) = Some (k, v) /\
      (1 <= depth_after d pre)%nat.
Proof.
  induction lines as [|raw r IH]; intros d.
  - split; [intros []|]. intros (pre & raw & post & E & _). by destruct pre.
  - cbn [recorded_pairs]. split.
    + intros Hin.
      assert (Hcases :
        (acf_kv_match (Str.strip raw) = Some (k, v) /\ (1 <= d)%nat) \/
        In (k, v) (recorded_pairs (depth_step d raw) r)).
      { destruct (acf_kv_match (Str.strip raw)) as [kv|]; [|by right].
        destruct (Nat.leb_spec 1 d); [|by right].
        destruct Hin as [->|Hin]; [by left | by right]. }
      destruct Hcases as [[Hm Hd]|Hr].
      * exists [], raw, r. done.
      * apply IH in Hr as (pre & raw' & post & -> & Hm & Hd).
        exists (raw :: pre), raw', post. done.
    + intros (pre & raw' & post & E & Hm & Hd).
      destruct pre as [|x pre]; simpl in E; injection E as <- ->.
      * rewrite Hm. simpl in Hd. destruct (Nat.leb_spec 1 d); [by left | lia].
      * assert (Hr : In (k, v) (recorded_pairs (depth_step d raw) (pre ++ raw' :: post))).
        { apply IH. exists pre, raw', post. done. }
        destruct (acf_kv_match (Str.strip raw)); [|done].
        destruct (1 <=? d)%nat; [by right | done].
Qed.

Lemma first_value_In (k v : string) (l : list (string * string)) :
  first_value k l = Some v -> In (k, v) l.
Proof.
  induction l as [|[k' v'] r IH]; [done|]. simpl.
  destruct (String.eqb_spec k' k) as [->|_]; [intros [= ->]; by left | auto].
Qed.

Lemma first_value_None (k : string) (l : list (string * string)) :
  first_value k l = None <-> forall v, ~ In (k, v) l.
Proof.
  induction l as [|[k' v'] r IH]; [split; [intros _ v [] | done]|]. simpl.
  destruct (String.eqb_spec k' k) as [->|Hne].
  - split; [done|]. intros H. destruct (H v'). by left.
  - rewrite IH. split.
    + intros H v [[= ? ?]|Hin]; [done | by apply (H v)].
    + intros H v Hin. apply (H v). by right.
Qed.

(** The parser run in a world returns a record; it never raises. *)
Lemma parse_acf_total (p : path) (w : World) :
  exists d, fst (parse_acf p w) = Ok d.
Proof.
  unfold parse_acf, bind, try_except, path_exists, path_read_text, observe, ret.
  destruct (lookup_path (fs (current w)) p); simpl; [|eauto].
  destruct (lookup_path (fs (current (advance w))) p) as [[st [t|]|]|]; simpl; eauto.
Qed.

Lemma observe_frozen {A} (f : snapshot -> outcome A) (s : snapshot) :
  observe f (frozen s) = (f s, frozen s).
Proof. reflexivity. Qed.

Lemma parse_acf_frozen (p : path) (s : snapshot) :
  parse_acf p (frozen s) = (Ok (manifest_record s p), frozen s).
Proof.
  unfold parse_acf, bind, try_except, path_exists, path_read_text, manifest_record.
  rewrite observe_frozen.
  destruct (lookup_path (fs s) p) as [[st [t|]|]|] eqn:E; cbn [negb];
    unfold ret; rewrite ?observe_frozen, ?E; reflexivity.
Qed.

Lemma acf_loop_keeps_recorded (lines more : list string) (k v : string) :
  snd (acf_loop lines) !! k = Some v ->
  snd (acf_loop (lines ++ more)) !! k = Some v.
Proof.
  unfold acf_loop. rewrite fold_left_app.
  destruct (fold_left acf_line lines ([], ∅)) as [stack data]. cbn [snd].
  intros H. destruct (acf_fold_spec more stack data) as [_ Hm].
  rewrite Hm, H. reflexivity.
Qed.

(** C6: for every manifest text and every key, the value recorded is the
    value of the first pair with that key among the pairs the parser records
    (those matched at depth 1 or more, in the order of the lines); once a key
    is recorded, no line read later changes its value; and parsing the same
    file again, in a world that does not change, gives the same record. *)
Theorem parse_acf_first_occurrence_wins (text k : string) (p : path) (s : snapshot) :
  parse_acf_text text !! k =
    first_value k (recorded_pairs 0 (Str.splitlines text)) /\
  (forall lines more v,
     snd (acf_loop lines) !! k = Some v ->
     snd (acf_loop (lines ++ more)) !! k = Some v) /\
  (let first_run := parse_acf p (frozen s) in
   let second_run := parse_acf p (snd first_run) in
   fst first_run = Ok (manifest_record s p) /\ fst second_run = fst first_run).
Proof.
  split; [apply parse_acf_text_first_value|].
  split; [intros lines more v; apply acf_loop_keeps_recorded|].
  cbv zeta. rewrite parse_acf_frozen. cbn [fst snd].
  rewrite parse_acf_frozen. split; reflexivity.
Qed.

Lemma parse_acf_first_occurrence_wins_witness :
  snd (acf_loop (["{"; kv_line "name" "first"] ++ [kv_line "name" "second"; "}"]))
    !! "name" = Some "first".
Proof.
  destruct (parse_acf_first_occurrence_wins sample_acf "name" [] sample_snapshot_0)
    as (_ & H & _).
  apply H. vm_compute. reflexivity.
Defined.

(** C7: the parser never raises, whatever the text; its stack depth is the
    depth counter floored at zero (a closing brace at depth zero leaves it
    at zero); every pair returned was matched by a line read at depth 1 or
    more, every key matched at depth 1 or more is returned, and a key whose
    matching lines are all read at depth 0 is not returned. *)
Theorem parse_acf_depth_gated (text : string) :
  let lines := Str.splitlines text in
  (forall p w, exists d, fst (parse_acf p w) = Ok d) /\
  length (fst (acf_loop lines)) = depth_after 0 lines /\
  (forall raw data, Str.strip raw = "}" ->
     depth_step 0 raw = 0%nat /\ fst (acf_line ([], data) raw) = []) /\
  (forall k v, parse_acf_text text !! k = Some v ->
     exists pre raw post,
       lines = (pre ++ raw :: post)%list /\
       acf_kv_match (Str.strip raw) = Some (k, v) /\
       (1 <= depth_after 0 pre)%nat) /\
  (forall pre raw post k v,
     lines = (pre ++ raw :: post)%list ->
     acf_kv_match (Str.strip raw) = Some (k, v) ->
     (1 <= depth_after 0 pre)%nat ->
     is_Some (parse_acf_text text !! k)) /\
  (forall k,
     (forall pre raw post v,
        lines = (pre ++ raw :: post)%list ->
        acf_kv_match (Str.strip raw) = Some (k, v) ->
        depth_after 0 pre = 0%nat) ->
     parse_acf_text text !! k = None).
Proof.
  intros lines. split; [exact parse_acf_total|]. split; [|split; [|split; [|split]]].
  - apply (acf_fold_spec lines [] ∅).
  - intros raw data E. unfold depth_step, acf_line. rewrite E. split; reflexivity.
  - intros k v H. rewrite parse_acf_text_first_value in H.
    apply first_value_In, recorded_pairs_In in H. exact H.
  - intros pre raw post k v E Hm Hd. rewrite parse_acf_text_first_value.
    destruct (first_value k (recorded_pairs 0 (Str.splitlines text))) eqn:F; [eauto|].
    exfalso. apply (proj1 (first_value_None _ _) F v).
    apply recorded_pairs_In. exists pre, raw, post. done.
  - intros k H. rewrite parse_acf_text_first_value. apply first_value_None.
    intros v Hin. apply recorded_pairs_In in Hin as (pre & raw & post & E & Hm & Hd).
    specialize (H pre raw post v E Hm). lia.
Qed.

Lemma parse_acf_depth_gated_witness :
  exists pre raw post,
    Str.splitlines sample_acf = (pre ++ raw :: post)%list /\
    acf_kv_match (Str.strip raw) = Some ("name", "Portal") /\
    (1 <= depth_after 0 pre)%nat.
Proof.
  destruct (parse_acf_depth_gated sample_acf) as (_ & _ & _ & H & _).
  apply H. vm_compute. reflexivity.
Defined.

(* ===================================================================== *)
(** * Properties of the directory size scanner *)
(* ===================================================================== *)

(** ** The walk adds up the reachable files *)

Lemma size_sum_app (a b : list (option stat_result)) :
  size_sum (a ++ b) = size_sum a + size_sum b.
Proof. induction a as [|x a IH]; simpl; [reflexivity | rewrite IH; lia]. Qed.

Lemma fold_add_file_size (files : list (option stat_result)) :
  forall total, fold_left add_file_size files total = total + size_sum files.
Proof.
  induction files as [|f r IH]; intros total; simpl; [lia|].
  rewrite IH. destruct f; simpl; lia.
Qed.

Lemma walk_total_from_concat (items : list (list (option stat_result))) :
  forall total, walk_total_from total items = total + size_sum (concat items).
Proof.
  induction items as [|files r IH]; intros total; simpl; [lia|].
  unfold walk_total_from in *. simpl. rewrite IH, fold_add_file_size, size_sum_app. lia.
Qed.

Lemma walk_total_concat (items : list (list (option stat_result))) :
  walk_total items = size_sum (concat items).
Proof. apply (walk_total_from_concat items 0). Qed.

Lemma os_walk_reachable (n : node) :
  size_sum (concat (os_walk n)) = size_sum (reachable_files n).
Proof.
  induction n as [st t | m l es IH] using node_ind_entries; [reflexivity|].
  destruct l; [|reflexivity]. cbn [os_walk reachable_files concat].
  rewrite size_sum_app.
  induction es as [|[nm x] r IHr]; [reflexivity|].
  inversion IH as [|? ? Hx Hr]; subst. specialize (IHr Hr).
  destruct x as [st t | m' l' es'].
  - cbn [walk_files walk_subdirs flat_map size_sum fold_right app] in *.
    fold (size_sum (walk_files r)).
    change (fold_right (fun f acc => size_or_zero f + acc) 0 ?l) with (size_sum l).
    lia.
  - cbn [walk_files walk_subdirs flat_map] in *.
    rewrite concat_app, !size_sum_app. cbn [snd] in Hx. rewrite Hx. lia.
Qed.

Lemma tree_size_reachable (n : node) :
  tree_size (Some n) = size_sum (reachable_files n).
Proof. unfold tree_size. rewrite walk_total_concat. apply os_walk_reachable. Qed.

(** C8: the scanner returns, without raising, the sum of the sizes of the
    files reachable by recursive descent from the path (zero for a path that
    does not exist); an empty directory gives 0, files of sizes 100, 200 and
    300 give 600, a root that cannot be listed gives 0, and a file whose
    [stat] fails adds nothing. *)
Theorem dir_size_bytes_sums_reachable_files (p : path) (w : World) :
  fst (dir_size_bytes p w) =
    Ok (match lookup_path (fs (current w)) p with
        | Some n => size_sum (reachable_files n)
        | None => 0
        end) /\
  (forall m, tree_size (Some (Dir m true [])) = 0) /\
  (forall m a b c,
     tree_size (Some (Dir m true [(a, plain_file 100); (b, plain_file 200);
                                  (c, plain_file 300)])) = 600) /\
  (forall m es, tree_size (Some (Dir m false es)) = 0) /\
  (forall st t, tree_size (Some (File st t)) = 0) /\
  (forall m es1 nm t es2,
     tree_size (Some (Dir m true (es1 ++ (nm, File None t) :: es2))) =
     tree_size (Some (Dir m true (es1 ++ es2)))).
Proof.
  split; [|repeat split].
  - unfold dir_size_bytes, observe. cbn [fst].
    destruct (lookup_path (fs (current w)) p) as [n|]; [|reflexivity].
    rewrite tree_size_reachable. reflexivity.
  - intros m es1 nm t es2. rewrite !tree_size_reachable.
    cbn [reachable_files]. rewrite !flat_map_app, !size_sum_app. reflexivity.
Qed.

(* ===================================================================== *)
(** * Properties of the selector *)
(* ===================================================================== *)

(** ** The sort *)

Lemma insert_desc_perm (x : Q * path) (l : list (Q * path)) :
  Permutation (insert_desc x l) (x :: l).
Proof.
  induction l as [|y r IH]; simpl; [reflexivity|].
  destruct (Qlt_bool (fst x) (fst y)); [|reflexivity].
  rewrite IH. apply perm_swap.
Qed.

Lemma sort_desc_perm (l : list (Q * path)) : Permutation (sort_desc l) l.
Proof.
  induction l as [|x r IH]; simpl; [reflexivity|].
  rewrite insert_desc_perm. by apply perm_skip.
Qed.

Lemma Qlt_bool_false (a b : Q) : Qlt_bool a b = false -> (b <= a)%Q.
Proof.
  unfold Qlt_bool. rewrite negb_false_iff. apply Qle_bool_iff.
Qed.

Lemma insert_desc_sorted (x : Q * path) (l : list (Q * path)) :
  StronglySorted newer_first l -> StronglySorted newer_first (insert_desc x l).
Proof.
  induction l as [|y r IH]; intros Hs; simpl.
  - constructor; constructor.
  - inversion Hs as [|? ? Hr Hy]; subst.
    destruct (Qlt_bool (fst x) (fst y)) eqn:E.
    + constructor; [by apply IH|].
      apply (Permutation_Forall (Permutation_sym (insert_desc_perm x r))).
      constructor; [|exact Hy].
      apply Qlt_le_weak, Qlt_bool_iff, E.
    + constructor; [exact Hs|].
      apply Qlt_bool_false in E.
      constructor; [exact E|].
      eapply List.Forall_impl; [|exact Hy].
      intros z Hz. unfold newer_first in *. eapply Qle_trans; eauto.
Qed.

Lemma sort_desc_sorted (l : list (Q * path)) : StronglySorted newer_first (sort_desc l).
Proof.
  induction l as [|x r IH]; simpl; [constructor | by apply insert_desc_sorted].
Qed.

(** ** The selector in a world that does not change *)

Lemma bind_frozen {A B} (m : IO A) (k : A -> IO B) (s : snapshot) (a : A) :
  m (frozen s) = (Ok a, frozen s) -> bind m k (frozen s) = k a (frozen s).
Proof. intros H. unfold bind. rewrite H. reflexivity. Qed.

Lemma enumerate_one_frozen (s : snapshot) (cands : list (Q * path)) (p : path) :
  enumerate_one cands p (frozen s) = (Ok (cands ++ candidate_of s p)%list, frozen s).
Proof.
  unfold enumerate_one, candidate_of, path_is_dir, path_stat_mtime, try_except, bind, ret.
  rewrite observe_frozen.
  destruct (lookup_path (fs s) p) as [[st t|m l es]|] eqn:E; cbn [andb];
    rewrite ?app_nil_r; try reflexivity.
  destruct (Str.isdigit (path_name p)); [|by rewrite app_nil_r].
  rewrite observe_frozen, E. reflexivity.
Qed.

Lemma for_each_enumerate_frozen (s : snapshot) (ps : list path) :
  forall cands,
    for_each enumerate_one ps cands (frozen s) =
    (Ok (cands ++ candidates_in s ps)%list, frozen s).
Proof.
  induction ps as [|p r IH]; intros cands; cbn [for_each candidates_in flat_map].
  - by rewrite app_nil_r.
  - rewrite (bind_frozen _ _ _ _ (enumerate_one_frozen s cands p)), IH.
    unfold candidates_in. by rewrite <- app_assoc.
Qed.

Lemma candidates_in_listed (s : snapshot) (ps : list path) :
  Forall (listed s) (candidates_in s ps).
Proof.
  induction ps as [|p r IH]; [constructor|].
  cbn [candidates_in flat_map]. apply Forall_app. split; [|exact IH].
  unfold candidate_of.
  destruct (lookup_path (fs s) p) as [[st t|m l es]|] eqn:E; try constructor.
  destruct (Str.isdigit (path_name p)); constructor; [|constructor].
  exists l, es. exact E.
Qed.

Lemma candidate_test_frozen (s : snapshot) (c : Q * path) :
  listed s c ->
  candidate_test (tree_size (lookup_path (fs s) (snd c))) (snd c) (frozen s) =
  (Ok (accepts s c), frozen s).
Proof.
  intros (l & es & E). unfold candidate_test, accepts.
  destruct (0 <? tree_size (lookup_path (fs s) (snd c))); [reflexivity|].
  unfold bind, time_time, path_stat_mtime, ret.
  rewrite !observe_frozen, E. reflexivity.
Qed.

Lemma scan_frozen (s : snapshot) (steamapps : path) (cs : list (Q * path)) :
  Forall (listed s) cs ->
  scan steamapps cs (frozen s) =
  (Ok (option_map (verdict s steamapps) (List.find (accepts s) cs)), frozen s).
Proof.
  induction cs as [|[m p] r IH]; intros Hl; [reflexivity|].
  inversion Hl as [|? ? Hc Hr]; subst.
  cbn [scan List.find]. unfold bind at 1. unfold dir_size_bytes.
  rewrite observe_frozen.
  rewrite (bind_frozen _ _ _ _ (candidate_test_frozen s (m, p) Hc)).
  destruct (accepts s (m, p)); [|by apply IH].
  unfold bind. rewrite parse_acf_frozen. reflexivity.
Qed.

Lemma firstn_listed (s : snapshot) (n : nat) (cs : list (Q * path)) :
  Forall (listed s) cs -> Forall (listed s) (firstn n cs).
Proof.
  apply Forall_take.
Qed.

Lemma find_first_accepted {A} (f : A -> bool) (pre : list A) (c : A) (post : list A) :
  Forall (fun x => f x = false) pre -> f c = true ->
  List.find f (pre ++ c :: post) = Some c.
Proof.
  induction 1 as [|x r Hx Hr IH]; intros Hc; simpl.
  - by rewrite Hc.
  - rewrite Hx. by apply IH.
Qed.

Lemma find_all_rejected {A} (f : A -> bool) (l : list A) :
  Forall (fun x => f x = false) l -> List.find f l = None.
Proof. induction 1 as [|x r Hx Hr IH]; simpl; [done | by rewrite Hx]. Qed.

Lemma find_active_download_frozen (s : snapshot) (steamapps : path) (m : Q)
    (es : list (string * node)) :
  lookup_path (fs s) (path_join steamapps "downloading") = Some (Dir m true es) ->
  find_active_download steamapps (frozen s) =
  (Ok (option_map (verdict s steamapps)
         (List.find (accepts s)
            (firstn 5 (sort_desc
               (candidates_in s
                  (map (fun e => path_join (path_join steamapps "downloading") (fst e))
                       es)))))),
   frozen s).
Proof.
  intros E. unfold find_active_download.
  set (downloading := path_join steamapps "downloading") in *.
  set (ps := map (fun e => path_join downloading (fst e)) es).
  unfold bind at 1. unfold path_exists. rewrite observe_frozen, E. cbn [negb].
  unfold bind at 1. unfold path_iterdir. rewrite observe_frozen, E. fold ps.
  unfold bind. rewrite (for_each_enumerate_frozen s ps []). cbn [app].
  destruct (candidates_in s ps) as [|c r] eqn:Ec; [reflexivity|].
  rewrite <- Ec. apply scan_frozen, firstn_listed.
  apply (Permutation_Forall (Permutation_sym (sort_desc_perm _))).
  apply candidates_in_listed.
Qed.

Lemma candidates_in_numeric (s : snapshot) (ps : list path) :
  Forall (fun c => Str.isdigit (path_name (snd c)) = true) (candidates_in s ps).
Proof.
  induction ps as [|p r IH]; [constructor|].
  cbn [candidates_in flat_map]. apply Forall_app. split; [|exact IH].
  unfold candidate_of.
  destruct (lookup_path (fs s) p) as [[st t|m l es]|]; try constructor.
  destruct (Str.isdigit (path_name p)) eqn:D; constructor; [exact D | constructor].
Qed.

(** C4: when the downloading directory can be listed and nothing changes
    during the scan, the candidates (the directories with a numeric name)
    are ranked by decreasing modification time, at most the first five are
    examined, the verdict is the first of them whose size is positive or
    whose modification is less than ten minutes old, and there is no active
    download when all of them fail that test. *)
Theorem selector_first_accepted_of_five_newest (s : snapshot) (steamapps : path)
    (m : Q) (es : list (string * node)) :
  lookup_path (fs s) (path_join steamapps "downloading") = Some (Dir m true es) ->
  let cands :=
    candidates_in s
      (map (fun e => path_join (path_join steamapps "downloading") (fst e)) es) in
  let ranked := sort_desc cands in
  let considered := firstn 5 ranked in
  Forall (fun c => Str.isdigit (path_name (snd c)) = true) cands /\
  Permutation ranked cands /\
  StronglySorted newer_first ranked /\
  (length considered <= 5)%nat /\
  find_active_download steamapps (frozen s) =
    (Ok (option_map (verdict s steamapps) (List.find (accepts s) considered)),
     frozen s) /\
  (forall pre c post,
     considered = (pre ++ c :: post)%list ->
     Forall (fun x => accepts s x = false) pre ->
     accepts s c = true ->
     fst (find_active_download steamapps (frozen s)) = Ok (Some (verdict s steamapps c))) /\
  (Forall (fun x => accepts s x = false) considered ->
   fst (find_active_download steamapps (frozen s)) = Ok None).
Proof.
  intros E cands ranked considered.
  pose proof (find_active_download_frozen s steamapps m es E) as H.
  fold cands in H. fold ranked in H. fold considered in H.
  split; [apply candidates_in_numeric|].
  split; [apply sort_desc_perm|].
  split; [apply sort_desc_sorted|].
  split; [apply firstn_le_length|].
  split; [exact H|]. split.
  - intros pre c post Ec Hpre Hc. rewrite H, Ec.
    rewrite (find_first_accepted _ _ _ _ Hpre Hc). reflexivity.
  - intros Hall. rewrite H, (find_all_rejected _ _ Hall). reflexivity.
Qed.

Lemma selector_first_accepted_of_five_newest_witness :
  fst (find_active_download ["steamapps"] (frozen sample_snapshot)) =
  Ok (Some {| appid := "2"; name := "Portal"; state := "downloading";
              download_dir := ["steamapps"; "downloading"; "2"];
              bytes_on_disk := 5000 |}).
Proof.
  destruct (selector_first_accepted_of_five_newest sample_snapshot ["steamapps"]
              0 sample_downloading eq_refl) as (_ & _ & _ & _ & H & _).
  rewrite H. vm_compute. reflexivity.
Defined.

(** ** The selector in any world *)

Lemma display_name_cases (info : gmap string string) (id : string) :
  (exists n, info !! "name" = Some n /\ n <> "" /\ display_name info id = n) \/
  ((info !! "name" = None \/ info !! "name" = Some "") /\
   display_name info id = "AppID " ++ id).
Proof.
  unfold display_name. destruct (info !! "name") as [[|c n]|]; cbn [Str.is_empty].
  - right. split; [by right | reflexivity].
  - left. exists (String c n). done.
  - right. split; [by left | reflexivity].
Qed.

Lemma display_name_nonempty (info : gmap string string) (id : string) :
  display_name info id <> "".
Proof.
  destruct (display_name_cases info id) as [(n & _ & Hn & ->)|[_ ->]]; [exact Hn | done].
Qed.

(** The system calls only move the world on. *)
Lemma iter_advance_after (j k : nat) (w : World) :
  Nat.iter k advance (Nat.iter j advance w) = Nat.iter (k + j) advance w.
Proof. by rewrite Nat.iter_add. Qed.

Lemma candidate_test_advances (size_b : Z) (p : path) (w : World) (ok : bool)
    (w1 : World) :
  candidate_test size_b p w = (Ok ok, w1) -> exists j, w1 = Nat.iter j advance w.
Proof.
  unfold candidate_test. destruct (0 <? size_b).
  - unfold ret. intros [= _ <-]. by exists 0%nat.
  - unfold bind, time_time, path_stat_mtime, observe, ret.
    destruct (lookup_path _ p) as [[[st|] t|m l es]|]; intros [= _ <-];
      by exists 2%nat.
Qed.

Lemma enumerate_one_advances (cands : list (Q * path)) (p : path) (w : World) :
  exists j, snd (enumerate_one cands p w) = Nat.iter j advance w.
Proof.
  unfold enumerate_one, bind, path_is_dir, path_stat_mtime, try_except, observe, ret.
  destruct (_ && _); [|by exists 1%nat].
  destruct (lookup_path (fs (current (advance w))) p) as [[[st|] t|m l es]|];
    by exists 2%nat.
Qed.

Lemma for_each_enumerate_advances (ps : list path) :
  forall acc w, exists j, snd (for_each enumerate_one ps acc w) = Nat.iter j advance w.
Proof.
  induction ps as [|p r IH]; intros acc w; cbn [for_each]; [by exists 0%nat|].
  unfold bind. destruct (enumerate_one_advances acc p w) as [j Hj].
  destruct (enumerate_one acc p w) as [[cs|e] w1]; cbn [snd] in Hj; subst w1.
  - destruct (IH cs (Nat.iter j advance w)) as [k Hk]. exists (k + j)%nat.
    by rewrite Hk, iter_advance_after.
  - by exists j.
Qed.

Lemma scan_name (steamapps : path) (cs : list (Q * path)) :
  forall w ad w',
    scan steamapps cs w = (Ok (Some ad), w') ->
    exists info k,
      parse_acf (manifest_path steamapps (appid ad)) (Nat.iter k advance w)
        = (Ok info, w') /\
      name ad = display_name info (appid ad).
Proof.
  induction cs as [|[m p] r IH]; intros w ad w'; [discriminate|].
  cbn [scan]. unfold bind at 1. unfold dir_size_bytes, observe.
  unfold bind at 1.
  destruct (candidate_test _ p (advance w)) as [[ok|e] w1] eqn:T; [|discriminate].
  apply candidate_test_advances in T as [j ->].
  change (Nat.iter j advance (advance w)) with (Nat.iter j advance (Nat.iter 1 advance w)).
  rewrite iter_advance_after. destruct ok.
  - unfold bind.
    destruct (parse_acf _ (Nat.iter (j + 1) advance w)) as [[info|e] w2] eqn:P;
      [|discriminate].
    unfold ret. intros [= <- <-]. exists info, (j + 1)%nat.
    split; [exact P | reflexivity].
  - intros H. destruct (IH _ _ _ H) as (info & k & P & N).
    exists info, (k + (j + 1))%nat. rewrite iter_advance_after in P. by split.
Qed.

Lemma find_active_download_name (steamapps : path) (w : World) (ad : ActiveDownload)
    (w' : World) :
  find_active_download steamapps w = (Ok (Some ad), w') ->
  exists info k,
    parse_acf (manifest_path steamapps (appid ad)) (Nat.iter k advance w)
      = (Ok info, w') /\
    name ad = display_name info (appid ad).
Proof.
  unfold find_active_download, bind. unfold path_exists, observe at 1.
  destruct (match lookup_path _ _ with Some _ => true | None => false end);
    cbn [negb]; [|discriminate].
  unfold path_iterdir, observe.
  destruct (match lookup_path (fs (current (advance w))) _ with
            | Some (Dir _ true es) => _ | _ => _ end) as [ps|e]; [|discriminate].
  destruct (for_each_enumerate_advances ps [] (advance (advance w))) as [j Hj].
  destruct (for_each enumerate_one ps [] (advance (advance w))) as [[[|c r]|e] w3];
    try discriminate.
  cbn [snd] in Hj. subst w3. intros H.
  destruct (scan_name _ _ _ _ _ H) as (info & k & P & N).
  exists info, (k + (j + 2))%nat. split; [|exact N].
  rewrite <- P. rewrite <- (iter_advance_after (j + 2) k). f_equal.
  rewrite <- (iter_advance_after 2 j). reflexivity.
Qed.

(** ** The parser while the tree stays the same *)

Lemma steady_advance (t : node) (w : World) : steady t w -> steady t (advance w).
Proof.
  intros [Hc Hu]. unfold advance. destruct (upcoming w) as [|s r] eqn:E.
  - split; [exact Hc | by rewrite E].
  - inversion Hu; subst. by split.
Qed.

Lemma steady_iter (t : node) (k : nat) (w : World) :
  steady t w -> steady t (Nat.iter k advance w).
Proof.
  intros H. induction k as [|k IH]; [exact H|]. cbn [Nat.iter]. by apply steady_advance.
Qed.

Lemma steady_frozen (s : snapshot) : steady (fs s) (frozen s).
Proof. split; [reflexivity | constructor]. Qed.

Lemma steady_ticking (t : node) (c0 : Q) (clocks : list Q) :
  steady t (ticking t c0 clocks).
Proof.
  split; [reflexivity|]. cbn [ticking upcoming].
  induction clocks as [|c r IH]; constructor; [reflexivity | exact IH].
Qed.

Lemma manifest_record_fs (s s' : snapshot) (p : path) :
  fs s = fs s' -> manifest_record s p = manifest_record s' p.
Proof. unfold manifest_record. by intros ->. Qed.

Lemma parse_acf_steady (t : node) (p : path) (w : World) :
  steady t w ->
  exists w', parse_acf p w = (Ok (manifest_record (current w) p), w') /\ steady t w'.
Proof.
  intros H. pose proof (steady_advance t w H) as H1.
  pose proof (steady_advance t _ H1) as H2.
  destruct H as [Hc _]. destruct H1 as [Hc1 Hu1].
  unfold parse_acf, bind, try_except, path_exists, path_read_text, manifest_record,
    observe, ret.
  cbn beta iota. rewrite Hc.
  destruct (lookup_path t p) as [[st [tx|]|]|] eqn:E; cbn [negb]; cbn beta iota;
    rewrite ?Hc1, ?E; eexists; (split; [reflexivity|]); try exact H2; by split.
Qed.

Lemma find_active_download_frozen_some (s : snapshot) (steamapps : path)
    (ad : ActiveDownload) (w' : World) :
  find_active_download steamapps (frozen s) = (Ok (Some ad), w') ->
  exists c, ad = verdict s steamapps c.
Proof.
  destruct (lookup_path (fs s) (path_join steamapps "downloading"))
    as [[st t|m [|] es]|] eqn:E.
  - unfold find_active_download, bind, path_exists, path_iterdir.
    rewrite observe_frozen, E. cbn [negb]. rewrite observe_frozen, E. discriminate.
  - rewrite (find_active_download_frozen s steamapps m es E).
    destruct (List.find _ _) as [c|]; [|discriminate].
    intros [= <- _]. by exists c.
  - unfold find_active_download, bind, path_exists, path_iterdir.
    rewrite observe_frozen, E. cbn [negb]. rewrite observe_frozen, E. discriminate.
  - unfold find_active_download, bind, path_exists.
    rewrite observe_frozen, E. discriminate.
Qed.

(** C3, as stated, fails twice: with a name key whose value is empty the
    name shown is the label and not that value, and the label reads
    AppID 7 and not Package 7. *)
Lemma display_name_is_not_always_manifest_name :
  (manifest_record empty_name_snapshot (manifest_path ["steamapps"] "123") !! "name"
     = Some "" /\
   fst (find_active_download ["steamapps"] (frozen empty_name_snapshot))
     = Ok (Some verdict_123) /\
   name verdict_123 <> "") /\
  (manifest_record no_manifest_snapshot (manifest_path ["steamapps"] "7") !! "name"
     = None /\
   fst (find_active_download ["steamapps"] (frozen no_manifest_snapshot))
     = Ok (Some verdict_7) /\
   name verdict_7 <> "Package 7").
Proof.
  split; (split; [vm_compute; reflexivity|]); (split; [vm_compute; reflexivity|]);
    discriminate.
Qed.

(** C3, amended: for every accepted candidate the display name is built from
    the record that the parser returns for the manifest of the candidate, in
    its run at the end of the selection: it is the value of the name key
    when that key is present with a value that is not empty, and the label
    AppID followed by the identifier when the key is absent or its value is
    empty.  While the tree stays the same during the call, that record is
    the record of the manifest in the tree. *)
Theorem display_name_from_manifest (steamapps : path) (w : World)
    (ad : ActiveDownload) (w' : World) :
  find_active_download steamapps w = (Ok (Some ad), w') ->
  (exists k info,
     parse_acf (manifest_path steamapps (appid ad)) (Nat.iter k advance w)
       = (Ok info, w') /\
     (forall n, info !! "name" = Some n -> n <> "" -> name ad = n) /\
     (info !! "name" = None \/ info !! "name" = Some "" ->
      name ad = "AppID " ++ appid ad)) /\
  (steady (fs (current w)) w ->
   let info := manifest_record (current w) (manifest_path steamapps (appid ad)) in
   (forall n, info !! "name" = Some n -> n <> "" -> name ad = n) /\
   (info !! "name" = None \/ info !! "name" = Some "" ->
    name ad = "AppID " ++ appid ad)).
Proof.
  intros H.
  destruct (find_active_download_name steamapps w ad w' H) as (info & k & P & N).
  assert (Hcases :
    (forall n, info !! "name" = Some n -> n <> "" -> name ad = n) /\
    (info !! "name" = None \/ info !! "name" = Some "" ->
     name ad = "AppID " ++ appid ad)).
  { rewrite N.
    destruct (display_name_cases info (appid ad))
      as [(n & Hn & Hne & ->)|[Hn ->]].
    - split; [intros n' Hn' _; congruence|].
      intros [Hnone|Hempty]; congruence.
    - split; [|reflexivity].
      intros n' Hn' Hne. destruct Hn as [Hn|Hn]; congruence. }
  split; [by exists k, info|].
  intros Hs info0.
  pose proof (steady_iter _ k w Hs) as Hk.
  destruct (parse_acf_steady _ (manifest_path steamapps (appid ad)) _ Hk)
    as (w2 & P2 & _).
  rewrite P in P2. injection P2 as Hinfo _.
  assert (E : info0 = info).
  { subst info0. rewrite Hinfo. apply manifest_record_fs.
    destruct Hk as [Hc _]. by rewrite Hc. }
  rewrite E. exact Hcases.
Qed.

Lemma display_name_from_manifest_witness :
  fst (find_active_download ["steamapps"] running_sample) = Ok (Some verdict_2) /\
  manifest_record (current running_sample) (manifest_path ["steamapps"] (appid verdict_2))
    !! "name" = Some "Portal" /\
  name verdict_2 = "Portal".
Proof.
  split; [vm_compute; reflexivity|]. split; [vm_compute; reflexivity|].
  refine (proj1 (proj2 (display_name_from_manifest ["steamapps"] running_sample
                          verdict_2 (Nat.iter 13 advance running_sample) _)
                       _) "Portal" _ _).
  - vm_compute. reflexivity.
  - exact (steady_ticking (fs sample_snapshot) _ _).
  - vm_compute. reflexivity.
  - discriminate.
Defined.

(** C10: the display name of a verdict is never the empty string; when the
    manifest has a name key whose value is empty, the name is the label
    built from the identifier. *)
Theorem display_name_never_empty (steamapps : path) (w : World)
    (ad : ActiveDownload) (w' : World) :
  find_active_download steamapps w = (Ok (Some ad), w') ->
  name ad <> "" /\
  (forall s, w = frozen s ->
     manifest_record s (manifest_path steamapps (appid ad)) !! "name" = Some "" ->
     name ad = "AppID " ++ appid ad).
Proof.
  intros H. split.
  - destruct (find_active_download_name steamapps w ad w' H) as (info & w1 & _ & ->).
    apply display_name_nonempty.
  - intros s -> Hempty.
    destruct (find_active_download_frozen_some s steamapps ad w' H) as (c & ->).
    cbn [name appid verdict]. unfold display_name.
    cbn [appid verdict] in Hempty. rewrite Hempty. reflexivity.
Qed.

Lemma display_name_never_empty_witness :
  name verdict_123 <> "" /\
  (forall s, frozen empty_name_snapshot = frozen s ->
     manifest_record s (manifest_path ["steamapps"] (appid verdict_123)) !! "name"
       = Some "" ->
     name verdict_123 = "AppID " ++ appid verdict_123).
Proof.
  apply (display_name_never_empty ["steamapps"] (frozen empty_name_snapshot)
           verdict_123 (frozen empty_name_snapshot)).
  vm_compute. reflexivity.
Defined.

(** ** A candidate that vanishes during the scan *)

(** C2 fails on the code.  The directory of candidate 9 is removed between
    its enumeration and the scan: the scanner gives size 0, the [stat] of the
    age test is outside any [try] and raises, and the exception leaves the
    selector, the round and the loop.  The same removal one call earlier,
    before the [stat] of the enumeration, is caught there.  A downloading
    entry that is not a directory makes [iterdir] raise as well. *)
Theorem selector_raises_when_candidate_vanishes :
  fst (find_active_download ["steamapps"] (removed_after 3)) = Raise FileNotFoundError /\
  fst (poll_round ["steamapps"] 60 empty_state (removed_after 4)) = Raise FileNotFoundError /\
  fst (monitor ["steamapps"] 5 60 (removed_after 4)) = Raise FileNotFoundError /\
  fst (find_active_download ["steamapps"] (removed_after 2)) = Ok None /\
  fst (find_active_download ["steamapps"] (frozen downloading_is_a_file))
    = Raise NotADirectoryError.
Proof. repeat split; vm_compute; reflexivity. Qed.

(* ===================================================================== *)
(** * Further properties of the rate estimator and of the loop *)
(* ===================================================================== *)

(** The elapsed time is at least 1, so the division is safe, and the rate
    lies between 0 and the delta. *)
Theorem rate_between_zero_and_delta (interval : Z) (now : Q) (st : RateState)
    (a : ActiveDownload) :
  (1 <= dt interval now st a)%Q /\
  0 <= delta st a /\
  (0 <= rate interval now st a)%Q /\
  (rate interval now st a <= inject_Z (delta st a))%Q.
Proof.
  pose proof (dt_ge_1 interval now st a) as Hd.
  assert (Hpos : (0 < dt interval now st a)%Q).
  { eapply Qlt_le_trans; [|exact Hd]. reflexivity. }
  assert (Hdelta : 0 <= delta st a) by (unfold delta; lia).
  assert (HdQ : (0 <= inject_Z (delta st a))%Q).
  { change 0%Q with (inject_Z 0). by rewrite <- Zle_Qle. }
  split; [exact Hd|]. split; [exact Hdelta|]. unfold rate. split.
  - apply Qle_shift_div_l; [exact Hpos|]. by rewrite Qmult_0_l.
  - apply Qle_shift_div_r; [exact Hpos|].
    apply Qle_trans with (1 * inject_Z (delta st a))%Q;
      [rewrite Qmult_1_l; apply Qle_refl|].
    rewrite (Qmult_comm (inject_Z (delta st a))).
    apply Qmult_le_compat_r; [exact Hd | exact HdQ].
Qed.

(** What a round stores is what the next round of the same package reads:
    its delta is the growth since the stored size, clamped at 0, its elapsed
    time is the time since the stored clock, floored at 1, and it is
    downloading exactly when it grew by 262144 bytes or more. *)
Theorem next_round_reads_stored_entry (interval : Z) (now1 now2 : Q) (st : RateState)
    (a1 a2 : ActiveDownload) :
  appid a2 = appid a1 ->
  let st1 := snd (rate_step interval now1 (Some a1) st) in
  delta st1 a2 = Z.max 0 (bytes_on_disk a2 - bytes_on_disk a1) /\
  dt interval now2 st1 a2 = Qmax_py 1 (now2 - now1) /\
  (status st1 a2 = "downloading" <-> bytes_on_disk a1 + 262144 <= bytes_on_disk a2).
Proof.
  intros E st1.
  assert (Hp : prev st1 !! appid a2 = Some (bytes_on_disk a1)).
  { rewrite E. apply lookup_insert_eq. }
  assert (Ht : prev_time st1 !! appid a2 = Some now1).
  { rewrite E. apply lookup_insert_eq. }
  assert (Hd : delta st1 a2 = Z.max 0 (bytes_on_disk a2 - bytes_on_disk a1)).
  { unfold delta, last_b. by rewrite Hp. }
  split; [exact Hd|]. split.
  - unfold dt, last_t. by rewrite Ht.
  - unfold status. rewrite Hd.
    destruct (Z.ltb_spec (Z.max 0 (bytes_on_disk a2 - bytes_on_disk a1)) (256 * 1024));
      split; intros H'; try discriminate; try reflexivity; lia.
Qed.

Lemma next_round_reads_stored_entry_witness :
  let st1 := snd (rate_step 60 1000 (Some first_seen_123) empty_state) in
  delta st1 grown_123 = Z.max 0 (bytes_on_disk grown_123 - bytes_on_disk first_seen_123) /\
  dt 60 1060 st1 grown_123 = Qmax_py 1 (1060 - 1000) /\
  (status st1 grown_123 = "downloading" <->
   bytes_on_disk first_seen_123 + 262144 <= bytes_on_disk grown_123).
Proof.
  apply (next_round_reads_stored_entry 60 1000 1060 empty_state first_seen_123 grown_123).
  reflexivity.
Defined.

Lemma poll_round_inv (steamapps : path) (interval : Z) (st : RateState) (w : World)
    (r : report) (st' : RateState) (w' : World) :
  poll_round steamapps interval st w = (Ok (r, st'), w') ->
  exists now active, rate_step interval now active st = (r, st').
Proof.
  unfold poll_round, bind. unfold time_time at 1, observe at 1.
  destruct (find_active_download steamapps (advance w)) as [[active|e] w1];
    [|discriminate].
  unfold time_time, observe, ret. intros [= H _].
  by exists (wall_clock (current w)), active.
Qed.

Lemma rate_step_keys (interval : Z) (now : Q) (active : option ActiveDownload)
    (st : RateState) (r : report) (st' : RateState) :
  rate_step interval now active st = (r, st') ->
  dom (prev st') = list_to_set (reported_ids [r]) ∪ dom (prev st) /\
  dom (prev_time st') = list_to_set (reported_ids [r]) ∪ dom (prev_time st).
Proof.
  destruct active as [a|]; cbn [rate_step]; intros [= <- <-]; cbn [reported_ids prev prev_time].
  - rewrite !dom_insert_L. split; set_solver.
  - split; set_solver.
Qed.

Lemma rounds_inv (steamapps : path) (interval : Z) (n : nat) :
  forall st w reports st' w',
    rounds steamapps interval n st w = (Ok (reports, st'), w') ->
    length reports = n /\
    dom (prev st') = list_to_set (reported_ids reports) ∪ dom (prev st) /\
    dom (prev_time st') = list_to_set (reported_ids reports) ∪ dom (prev_time st).
Proof.
  induction n as [|n IH]; intros st w reports st' w'.
  - cbn [rounds]. unfold ret. intros [= <- <- _]. split; [reflexivity|]. split; set_solver.
  - cbn [rounds]. unfold bind at 1.
    destruct (poll_round steamapps interval st w) as [[[r st1]|e] w1] eqn:P; [|discriminate].
    apply poll_round_inv in P as (now & active & P).
    apply rate_step_keys in P as [Kp Kt].
    unfold bind at 1.
    destruct (match n with O => ret tt | S _ => sleep interval end w1) as [[[]|e] w2];
      [|discriminate].
    unfold bind. cbn [snd fst].
    destruct (rounds steamapps interval n st1 w2) as [[[rs st2]|e] w3] eqn:R;
      [|discriminate].
    unfold ret. intros [= <- <- _]. cbn [fst snd].
    destruct (IH _ _ _ _ _ R) as (Hl & Hp & Ht).
    split; [cbn; by rewrite Hl|].
    rewrite Hp, Ht, Kp, Kt.
    assert (Hids : reported_ids (r :: rs) = (reported_ids [r] ++ reported_ids rs)%list).
    { destruct r; reflexivity. }
    rewrite Hids, list_to_set_app_L. split; set_solver.
Qed.

(** When the loop of [main] returns, it has run max(1, minutes) rounds (so
    at least one), and the keys of both dictionaries are exactly the
    identifiers it reported. *)
Theorem monitor_rounds_and_keys (steamapps : path) (minutes interval : Z) (w : World)
    (reports : list report) (st' : RateState) (w' : World) :
  monitor steamapps minutes interval w = (Ok (reports, st'), w') ->
  length reports = Z.to_nat (Z.max 1 minutes) /\
  (1 <= length reports)%nat /\
  dom (prev st') = list_to_set (reported_ids reports) /\
  dom (prev_time st') = list_to_set (reported_ids reports).
Proof.
  unfold monitor. intros H. apply rounds_inv in H as (Hl & Hp & Ht).
  split; [exact Hl|]. split; [lia|].
  rewrite Hp, Ht. cbn [empty_state prev prev_time]. split; set_solver.
Qed.

Lemma monitor_rounds_and_keys_witness :
  length [NoActive; NoActive; NoActive] = Z.to_nat (Z.max 1 3) /\
  (1 <= length [NoActive; NoActive; NoActive])%nat /\
  dom (prev empty_state) = list_to_set (reported_ids [NoActive; NoActive; NoActive]) /\
  dom (prev_time empty_state) = list_to_set (reported_ids [NoActive; NoActive; NoActive]).
Proof.
  apply (monitor_rounds_and_keys ["steamapps"] 3 60 (frozen sample_snapshot_0)
           [NoActive; NoActive; NoActive] empty_state (frozen sample_snapshot_0)).
  vm_compute. reflexivity.
Defined.

Lemma find_active_download_missing (steamapps : path) (w : World) :
  lookup_path (fs (current w)) (path_join steamapps "downloading") = None ->
  find_active_download steamapps w = (Ok None, advance w).
Proof.
  intros E. unfold find_active_download, bind, path_exists, observe.
  rewrite E. reflexivity.
Qed.

(* ===================================================================== *)
(** * Further properties of the selector *)
(* ===================================================================== *)

Lemma path_name_join (d : path) (nm : string) : path_name (path_join d nm) = nm.
Proof. unfold path_name, path_join. apply last_last. Qed.

Lemma enumerate_one_shape (cands : list (Q * path)) (p : path) (w : World) :
  exists cs,
    fst (enumerate_one cands p w) = Ok cs /\
    (cs = cands \/
     exists m, cs = (cands ++ [(m, p)])%list /\ Str.isdigit (path_name p) = true).
Proof.
  unfold enumerate_one, bind, path_is_dir, path_stat_mtime, try_except, observe, ret.
  destruct (match lookup_path (fs (current w)) p with
            | Some (Dir _ _ _) => true
            | _ => false
            end && Str.isdigit (path_name p)) eqn:G; cbn [fst]; [|eauto].
  apply andb_prop in G as [_ D].
  destruct (lookup_path (fs (current (advance w))) p) as [[[st|] t|m l es]|];
    cbn [fst]; eexists; (split; [reflexivity|]); (by left) || (right; eauto).
Qed.

Lemma for_each_enumerate_shape (ps : list path) :
  forall acc w,
    exists cs,
      fst (for_each enumerate_one ps acc w) = Ok cs /\
      (length cs <= length acc + length ps)%nat /\
      forall c, In c cs ->
        In c acc \/ (In (snd c) ps /\ Str.isdigit (path_name (snd c)) = true).
Proof.
  induction ps as [|p r IH]; intros acc w.
  - exists acc. cbn. split; [reflexivity|]. split; [lia | auto].
  - cbn [for_each]. unfold bind.
    destruct (enumerate_one_shape acc p w) as (cs1 & E1 & Hcs1).
    destruct (enumerate_one acc p w) as [o w1]. cbn [fst] in E1. subst o.
    destruct (IH cs1 w1) as (cs & E & Hlen & Hin).
    exists cs. split; [exact E|]. split.
    + destruct Hcs1 as [->|(m & -> & _)]; [cbn; lia|].
      rewrite length_app in Hlen. cbn in *. lia.
    + intros c Hc. destruct (Hin c Hc) as [Hacc|[Hr D]]; [|right; split; [by right | exact D]].
      destruct Hcs1 as [->|(m & -> & D)]; [by left|].
      apply in_app_or in Hacc as [Hacc|[<-|[]]]; [by left|].
      right. split; [by left | exact D].
Qed.

(** The [stat] of the enumeration is guarded.  An entry with a numeric name
    that is a directory when [is_dir] looks at it never makes the
    enumeration raise, whatever becomes of it before its modification time
    is read: it is added at the end of the list with the time read, and
    when the [stat] fails the list stays as it was. *)
Theorem enumeration_guard_recovers (cands : list (Q * path)) (p : path) (w : World)
    (m : Q) (l : bool) (es : list (string * node)) :
  lookup_path (fs (current w)) p = Some (Dir m l es) ->
  Str.isdigit (path_name p) = true ->
  enumerate_one cands p w =
  (Ok match lookup_path (fs (current (advance w))) p with
      | Some (Dir m' _ _) => (cands ++ [(m', p)])%list
      | Some (File (Some st) _) => (cands ++ [(st_mtime st, p)])%list
      | _ => cands
      end,
   advance (advance w)).
Proof.
  intros E D.
  unfold enumerate_one, bind, path_is_dir, path_stat_mtime, try_except, observe, ret.
  cbn beta iota. rewrite E, D. cbn [andb].
  destruct (lookup_path (fs (current (advance w))) p) as [[[st|] t|m' l' es']|];
    reflexivity.
Qed.

Lemma enumeration_guard_recovers_witness :
  enumerate_one [] ["steamapps"; "downloading"; "9"] (removed_after 0) =
  (Ok [], advance (advance (removed_after 0))).
Proof.
  apply (enumeration_guard_recovers [] ["steamapps"; "downloading"; "9"]
           (removed_after 0) 100 true []); reflexivity.
Defined.

Lemma In_firstn {A} (x : A) (n : nat) (l : list A) : In x (firstn n l) -> In x l.
Proof.
  revert l. induction n as [|n IH]; intros [|y l]; cbn; try tauto.
  intros [->|H]; [by left | right; by apply IH].
Qed.

Lemma scan_shape (steamapps : path) (cs : list (Q * path)) :
  forall w ad w',
    scan steamapps cs w = (Ok (Some ad), w') ->
    exists c, In c cs /\
      appid ad = path_name (snd c) /\ download_dir ad = snd c /\
      state ad = "downloading".
Proof.
  induction cs as [|[m p] r IH]; intros w ad w'; [discriminate|].
  cbn [scan]. unfold bind at 1. unfold dir_size_bytes, observe.
  unfold bind at 1.
  destruct (candidate_test _ p (advance w)) as [[[|]|e] w1]; [| |discriminate].
  - unfold bind. destruct (parse_acf _ w1) as [[info|e] w2]; [|discriminate].
    unfold ret. intros [= <- _]. exists (m, p). split; [by left | done].
  - intros H. destruct (IH _ _ _ H) as (c & Hc & Hrest).
    exists c. split; [by right | exact Hrest].
Qed.

(** Whatever the world does, a verdict of the selector is tagged
    downloading, its identifier is numeric, and its directory is the entry
    of that name under the downloading directory. *)
Theorem verdict_is_a_numeric_entry (steamapps : path) (w : World)
    (ad : ActiveDownload) (w' : World) :
  find_active_download steamapps w = (Ok (Some ad), w') ->
  state ad = "downloading" /\
  Str.isdigit (appid ad) = true /\
  download_dir ad = path_join (path_join steamapps "downloading") (appid ad).
Proof.
  unfold find_active_download, bind.
  destruct (path_exists _ w) as [[[|]|e] w1]; cbn [negb]; try discriminate.
  unfold path_iterdir at 1, observe at 1.
  destruct (lookup_path (fs (current w1)) (path_join steamapps "downloading"))
    as [[st t|m [|] es]|]; try discriminate.
  set (d := path_join steamapps "downloading").
  set (ps := map (fun e => path_join d (fst e)) es).
  destruct (for_each_enumerate_shape ps [] (advance w1)) as (cs & E & _ & Hin).
  destruct (for_each enumerate_one ps [] (advance w1)) as [o w2]. cbn [fst] in E. subst o.
  destruct cs as [|c0 r0] eqn:Ecs; [discriminate|]. rewrite <- Ecs in *.
  intros H. apply scan_shape in H as (c & Hc & Hid & Hdir & Hst).
  assert (Hc' : In c cs).
  { eapply Permutation_in; [apply sort_desc_perm|]. eapply In_firstn, Hc. }
  destruct (Hin c Hc') as [[]|[Hps D]].
  apply in_map_iff in Hps as (e & He & _).
  split; [exact Hst|]. rewrite Hid, Hdir. split; [exact D|].
  rewrite <- He. by rewrite path_name_join.
Qed.

Lemma verdict_is_a_numeric_entry_witness :
  state verdict_123 = "downloading" /\
  Str.isdigit (appid verdict_123) = true /\
  download_dir verdict_123
    = path_join (path_join ["steamapps"] "downloading") (appid verdict_123).
Proof.
  apply (verdict_is_a_numeric_entry ["steamapps"] (frozen empty_name_snapshot)
           verdict_123 (frozen empty_name_snapshot)).
  vm_compute. reflexivity.
Defined.

(** The listing of the downloading directory is not guarded.  While the
    tree stays the same, the selector raises NotADirectoryError when the
    downloading entry is not a directory, and PermissionError when it is a
    directory that cannot be listed. *)
Theorem selector_raises_when_listing_fails (steamapps : path) (t : node) (w : World) :
  steady t w ->
  match lookup_path t (path_join steamapps "downloading") with
  | Some (File _ _) =>
      fst (find_active_download steamapps w) = Raise NotADirectoryError
  | Some (Dir _ false _) =>
      fst (find_active_download steamapps w) = Raise PermissionError
  | _ => True
  end.
Proof.
  intros H. pose proof (steady_advance t w H) as [Hc1 _]. destruct H as [Hc _].
  destruct (lookup_path t (path_join steamapps "downloading"))
    as [[st tx|m [|] es]|] eqn:E; try exact I;
    unfold find_active_download, bind, path_exists, path_iterdir, observe;
    cbn beta iota; rewrite Hc, E; cbn [negb]; cbn beta iota; rewrite Hc1, E;
    reflexivity.
Qed.

Lemma selector_raises_when_listing_fails_witness :
  fst (find_active_download ["steamapps"] (ticking (fs unlistable_downloading) 0 [1%Q; 2%Q]))
  = Raise PermissionError.
Proof.
  exact (selector_raises_when_listing_fails ["steamapps"] (fs unlistable_downloading) _
           (steady_ticking _ _ _)).
Defined.

(* ===================================================================== *)
(** * The selector and the loop while the tree stays the same *)
(* ===================================================================== *)

Section SteadyTree.

Variable t : node.
Variable s : snapshot.
Hypothesis tree_of_s : fs s = t.
Variable steamapps : path.

Lemma enumerate_one_steady (cands : list (Q * path)) (p : path) (w : World) :
  steady t w ->
  exists w',
    enumerate_one cands p w = (Ok (cands ++ candidate_of s p)%list, w') /\
    steady t w'.
Proof.
  intros H. pose proof (steady_advance t w H) as H1.
  pose proof (steady_advance t _ H1) as H2.
  unfold enumerate_one, candidate_of, path_is_dir, path_stat_mtime, try_except,
    bind, observe, ret.
  cbn beta iota. rewrite (proj1 H), tree_of_s.
  destruct (lookup_path t p) as [[st tx|m l es]|] eqn:E; cbn [andb];
    rewrite ?app_nil_r; try (exists (advance w); split; [reflexivity | exact H1]).
  destruct (Str.isdigit (path_name p)).
  - cbn beta iota. rewrite (proj1 H1), E.
    exists (advance (advance w)). split; [reflexivity | exact H2].
  - rewrite app_nil_r. exists (advance w). split; [reflexivity | exact H1].
Qed.

Lemma for_each_enumerate_steady (ps : list path) :
  forall cands w,
    steady t w ->
    exists w',
      for_each enumerate_one ps cands w = (Ok (cands ++ candidates_in s ps)%list, w') /\
      steady t w'.
Proof.
  induction ps as [|p r IH]; intros cands w H; cbn [for_each candidates_in flat_map].
  - exists w. rewrite app_nil_r. by split.
  - destruct (enumerate_one_steady cands p w H) as (w1 & E1 & H1).
    destruct (IH (cands ++ candidate_of s p)%list w1 H1) as (w2 & E2 & H2).
    exists w2. split; [|exact H2].
    unfold bind. rewrite E1, E2. unfold candidates_in. by rewrite <- app_assoc.
Qed.

Lemma candidate_test_steady (c : Q * path) (w : World) :
  listed s c ->
  steady t w ->
  exists ok w',
    candidate_test (tree_size (lookup_path t (snd c))) (snd c) w = (Ok ok, w') /\
    steady t w'.
Proof.
  intros (l & es & E) H. rewrite tree_of_s in E. unfold candidate_test.
  destruct (0 <? tree_size (lookup_path t (snd c))).
  - exists true, w. by split.
  - pose proof (steady_advance t w H) as H1.
    pose proof (steady_advance t _ H1) as H2.
    unfold bind, time_time, path_stat_mtime, observe, ret. cbn beta iota.
    rewrite (proj1 H1), E. eexists _, _. split; [reflexivity | exact H2].
Qed.

Lemma verdict_steady (w : World) (c : Q * path) :
  steady t w -> verdict (current w) steamapps c = verdict s steamapps c.
Proof.
  intros [Hc _]. unfold verdict.
  rewrite (manifest_record_fs (current w) s) by (by rewrite Hc).
  by rewrite Hc, tree_of_s.
Qed.

Lemma scan_steady (cs : list (Q * path)) :
  forall w,
    Forall (listed s) cs ->
    steady t w ->
    exists r w',
      scan steamapps cs w = (Ok r, w') /\ steady t w' /\
      forall a, r = Some a -> exists c, In c cs /\ a = verdict s steamapps c.
Proof.
  induction cs as [|[m p] r IH]; intros w Hl H.
  - exists None, w. split; [reflexivity|]. split; [exact H | discriminate].
  - apply Forall_cons in Hl as [Hc Hr].
    pose proof (steady_advance t w H) as H1.
    destruct (candidate_test_steady (m, p) (advance w) Hc H1) as (ok & w1 & T & Hw1).
    cbn [snd] in T.
    cbn [scan]. unfold bind at 1. unfold dir_size_bytes, observe. rewrite (proj1 H).
    unfold bind at 1. rewrite T. destruct ok.
    + destruct (parse_acf_steady t (manifest_path steamapps (path_name p)) w1 Hw1)
        as (w2 & P & Hw2).
      unfold bind. rewrite P. unfold ret. eexists _, w2.
      split; [reflexivity|]. split; [exact Hw2|].
      intros a [= <-]. exists (m, p). split; [by left|].
      rewrite <- (verdict_steady w1 (m, p) Hw1). unfold verdict. cbn [snd].
      by rewrite (proj1 Hw1).
    + destruct (IH w1 Hr Hw1) as (r' & w2 & S & Hw2 & Hv).
      exists r', w2. split; [exact S|]. split; [exact Hw2|].
      intros a Ha. destruct (Hv a Ha) as (c & Hin & ->).
      exists c. split; [by right | reflexivity].
Qed.

Lemma candidates_in_paths (ps : list path) (c : Q * path) :
  In c (candidates_in s ps) -> In (snd c) ps.
Proof.
  induction ps as [|p r IH]; [intros []|].
  cbn [candidates_in flat_map]. intros H. apply in_app_or in H as [H|H].
  - left. unfold candidate_of in H.
    destruct (lookup_path (fs s) p) as [[st tx|m l es]|]; try destruct H.
    destruct (Str.isdigit (path_name p)); [|destruct H].
    destruct H as [<-|[]]. reflexivity.
  - right. by apply IH.
Qed.

Lemma find_active_download_steady (w : World) :
  steady t w ->
  lookup_path t (path_join steamapps "downloading") = None \/
  (exists m es, lookup_path t (path_join steamapps "downloading") = Some (Dir m true es)) ->
  exists r w',
    find_active_download steamapps w = (Ok r, w') /\ steady t w' /\
    forall a, r = Some a -> bytes_on_disk a = size_on_disk t steamapps (appid a).
Proof.
  intros H [E|(m & es & E)].
  - exists None, (advance w). split; [|split; [by apply steady_advance | discriminate]].
    apply find_active_download_missing. by rewrite (proj1 H).
  - pose proof (steady_advance t w H) as H1.
    pose proof (steady_advance t _ H1) as H2.
    unfold find_active_download.
    set (downloading := path_join steamapps "downloading") in *.
    set (ps := map (fun e => path_join downloading (fst e)) es).
    destruct (for_each_enumerate_steady ps [] _ H2) as (w3 & F & H3).
    cbn [app] in F.
    unfold bind at 1. unfold path_exists, observe at 1. rewrite (proj1 H), E. cbn [negb].
    unfold bind at 1. unfold path_iterdir, observe at 1. rewrite (proj1 H1), E. fold ps.
    unfold bind. rewrite F.
    destruct (candidates_in s ps) as [|c0 r0] eqn:Ec.
    { exists None, w3. split; [reflexivity|]. split; [exact H3 | discriminate]. }
    rewrite <- Ec.
    assert (Hl : Forall (listed s) (firstn 5 (sort_desc (candidates_in s ps)))).
    { apply firstn_listed.
      apply (Permutation_Forall (Permutation_sym (sort_desc_perm _))).
      apply candidates_in_listed. }
    destruct (scan_steady _ w3 Hl H3) as (r & w4 & S & H4 & Hv).
    exists r, w4. split; [exact S|]. split; [exact H4|].
    intros a Ha. destruct (Hv a Ha) as (c & Hin & ->).
    assert (Hc : In (snd c) ps).
    { apply candidates_in_paths. eapply Permutation_in; [apply sort_desc_perm|].
      eapply In_firstn, Hin. }
    apply in_map_iff in Hc as (e & He & _).
    unfold verdict, size_on_disk. cbn [bytes_on_disk appid].
    fold downloading. rewrite <- He, path_name_join. by rewrite tree_of_s.
Qed.

Lemma poll_round_steady (interval : Z) (st : RateState) (w : World) :
  steady t w ->
  lookup_path t (path_join steamapps "downloading") = None \/
  (exists m es, lookup_path t (path_join steamapps "downloading") = Some (Dir m true es)) ->
  exists r w',
    poll_round steamapps interval st w
      = (Ok (rate_step interval (wall_clock (current w)) r st), w') /\
    steady t w' /\
    (lookup_path t (path_join steamapps "downloading") = None -> r = None) /\
    forall a, r = Some a -> bytes_on_disk a = size_on_disk t steamapps (appid a).
Proof.
  intros H D. pose proof (steady_advance t w H) as H1.
  destruct (find_active_download_steady (advance w) H1 D) as (r & w1 & F & Hw1 & Hb).
  exists r, (advance w1). unfold poll_round, bind, time_time, observe, ret.
  cbn beta iota. rewrite F. split; [reflexivity|].
  split; [by apply steady_advance|]. split; [|exact Hb].
  intros E. rewrite (find_active_download_missing steamapps (advance w)) in F
    by (by rewrite (proj1 H1)).
  by injection F as <- _.
Qed.

Lemma still_step (interval : Z) (now : Q) (st : RateState) (r : option ActiveDownload) :
  sizes_known t steamapps st ->
  (forall a, r = Some a -> bytes_on_disk a = size_on_disk t steamapps (appid a)) ->
  still_report t steamapps (fst (rate_step interval now r st)) /\
  sizes_known t steamapps (snd (rate_step interval now r st)).
Proof.
  intros Hk Hb. destruct r as [a|]; [|split; [exact I | exact Hk]].
  specialize (Hb a eq_refl).
  assert (Hd : delta st a = 0).
  { unfold delta, last_b. destruct (prev st !! appid a) as [size|] eqn:E; simpl.
    - apply Hk in E. rewrite Hb, E. lia.
    - lia. }
  cbn [rate_step fst snd still_report]. split; [split; [|split]|].
  - unfold status. by rewrite Hd.
  - unfold rate. rewrite Hd. unfold Qdiv. apply Qmult_0_l.
  - exact Hb.
  - intros id size. cbn [prev].
    destruct (decide (id = appid a)) as [->|Hne].
    + rewrite lookup_insert_eq. by intros [= <-].
    + rewrite lookup_insert_ne by congruence. apply Hk.
Qed.

Lemma sleep_in_range (interval : Z) (w : World) :
  0 <= interval <= sleep_max -> sleep interval w = (Ok tt, advance w).
Proof.
  intros H. unfold sleep.
  destruct (Z.ltb_spec interval (- sleep_max)); [unfold sleep_max in *; lia|].
  destruct (Z.ltb_spec sleep_max interval); [lia|].
  destruct (Z.ltb_spec interval 0); [lia | reflexivity].
Qed.

Lemma sleep_negative (interval : Z) (w : World) :
  - sleep_max <= interval < 0 -> sleep interval w = (Raise ValueError, w).
Proof.
  intros H. unfold sleep.
  destruct (Z.ltb_spec interval (- sleep_max)); [lia|].
  destruct (Z.ltb_spec sleep_max interval); [unfold sleep_max in *; lia|].
  destruct (Z.ltb_spec interval 0); [reflexivity | lia].
Qed.

Lemma rounds_steady (interval : Z) (n : nat) :
  0 <= interval <= sleep_max ->
  lookup_path t (path_join steamapps "downloading") = None \/
  (exists m es, lookup_path t (path_join steamapps "downloading") = Some (Dir m true es)) ->
  forall st w,
    steady t w ->
    sizes_known t steamapps st ->
    exists reports st' w',
      rounds steamapps interval n st w = (Ok (reports, st'), w') /\
      length reports = n /\
      Forall (still_report t steamapps) reports /\
      (lookup_path t (path_join steamapps "downloading") = None ->
       reports = repeat NoActive n /\ st' = st).
Proof.
  intros Hi D. induction n as [|n IH]; intros st w H Hk.
  - exists [], st, w. split; [reflexivity|]. split; [reflexivity|].
    split; [constructor | by intros _].
  - destruct (poll_round_steady interval st w H D) as (r & w1 & P & H1 & Hn & Hb).
    destruct (still_step interval (wall_clock (current w)) st r Hk Hb) as [Hr Hk'].
    set (w2 := match n with O => w1 | S _ => advance w1 end).
    assert (Hs : (match n with O => ret tt | S _ => sleep interval end) w1 = (Ok tt, w2)).
    { subst w2. destruct n; [reflexivity | by apply sleep_in_range]. }
    assert (H2 : steady t w2).
    { subst w2. destruct n; [exact H1 | by apply steady_advance]. }
    destruct (IH _ w2 H2 Hk') as (rs & st' & w3 & R & Hl & Hall & Hnone).
    eexists _, st', w3. split; [|split; [|split]].
    + cbn [rounds]. unfold bind at 1. rewrite P. unfold bind at 1. rewrite Hs.
      unfold bind. cbn [snd fst]. rewrite R. reflexivity.
    + cbn [fst length]. by rewrite Hl.
    + constructor; [exact Hr | exact Hall].
    + intros E. destruct (Hnone E) as [-> ->]. rewrite (Hn E). by split.
Qed.

Lemma rounds_negative_interval (interval : Z) (n : nat) (st : RateState) (w : World) :
  - sleep_max <= interval < 0 ->
  lookup_path t (path_join steamapps "downloading") = None \/
  (exists m es, lookup_path t (path_join steamapps "downloading") = Some (Dir m true es)) ->
  steady t w ->
  fst (rounds steamapps interval (S (S n)) st w) = Raise ValueError.
Proof.
  intros Hi D H.
  destruct (poll_round_steady interval st w H D) as (r & w1 & P & _).
  cbn [rounds]. unfold bind at 1. rewrite P. unfold bind at 1.
  by rewrite sleep_negative.
Qed.

End SteadyTree.

(** While the tree stays the same and the clock runs, with an interval that
    [time.sleep] accepts and a downloading directory that is absent or can
    be listed, the loop returns after max(1, minutes) rounds, and no round
    reports progress: each one reports that nothing is active, or shows a
    package paused or idle at rate 0 with its size in the tree, the first
    round included. *)
Theorem unchanging_tree_reports_no_progress (steamapps : path) (minutes interval : Z)
    (t : node) (w : World) :
  steady t w ->
  lookup_path t (path_join steamapps "downloading") = None \/
  (exists m es, lookup_path t (path_join steamapps "downloading") = Some (Dir m true es)) ->
  0 <= interval <= sleep_max ->
  exists reports st' w',
    monitor steamapps minutes interval w = (Ok (reports, st'), w') /\
    length reports = Z.to_nat (Z.max 1 minutes) /\
    Forall (still_report t steamapps) reports.
Proof.
  intros H D Hi.
  destruct (rounds_steady t (current w) (proj1 H) steamapps interval
              (Z.to_nat (Z.max 1 minutes)) Hi D empty_state w H)
    as (reports & st' & w' & R & Hl & Hall & _).
  { intros id size. cbn [empty_state prev]. by rewrite lookup_empty. }
  by exists reports, st', w'.
Qed.

Lemma unchanging_tree_reports_no_progress_witness :
  exists reports st' w',
    monitor ["steamapps"] 3 60 running_sample = (Ok (reports, st'), w') /\
    length reports = Z.to_nat (Z.max 1 3) /\
    Forall (still_report (fs sample_snapshot) ["steamapps"]) reports.
Proof.
  apply (unchanging_tree_reports_no_progress ["steamapps"] 3 60 (fs sample_snapshot)
           running_sample).
  - exact (steady_ticking (fs sample_snapshot) _ _).
  - right. by exists 0%Q, sample_downloading.
  - unfold sleep_max. lia.
Defined.

(** Without a downloading directory the selector returns no download and
    does not raise, whatever happens afterwards.  While the tree stays the
    same, with an interval that [time.sleep] accepts, every round of the
    loop then reports that nothing is active and the dictionaries stay
    empty. *)
Theorem no_downloading_directory_no_download (steamapps : path) (w : World)
    (minutes interval : Z) :
  lookup_path (fs (current w)) (path_join steamapps "downloading") = None ->
  find_active_download steamapps w = (Ok None, advance w) /\
  (steady (fs (current w)) w ->
   0 <= interval <= sleep_max ->
   exists w',
     monitor steamapps minutes interval w =
     (Ok (repeat NoActive (Z.to_nat (Z.max 1 minutes)), empty_state), w')).
Proof.
  intros E. split; [by apply find_active_download_missing|].
  intros H Hi.
  destruct (rounds_steady (fs (current w)) (current w) eq_refl steamapps interval
              (Z.to_nat (Z.max 1 minutes)) Hi (or_introl E) empty_state w H)
    as (reports & st' & w' & R & _ & _ & Hnone).
  { intros id size. cbn [empty_state prev]. by rewrite lookup_empty. }
  destruct (Hnone E) as [-> ->]. by exists w'.
Qed.

Lemma no_downloading_directory_no_download_witness :
  find_active_download ["steamapps"] (ticking (fs sample_snapshot_0) 0 [1%Q; 2%Q; 3%Q])
    = (Ok None, advance (ticking (fs sample_snapshot_0) 0 [1%Q; 2%Q; 3%Q])) /\
  exists w',
    monitor ["steamapps"] 2 60 (ticking (fs sample_snapshot_0) 0 [1%Q; 2%Q; 3%Q]) =
    (Ok (repeat NoActive (Z.to_nat (Z.max 1 2)), empty_state), w').
Proof.
  destruct (no_downloading_directory_no_download ["steamapps"]
              (ticking (fs sample_snapshot_0) 0 [1%Q; 2%Q; 3%Q]) 2 60 eq_refl)
    as [H1 H2].
  split; [exact H1|]. apply H2.
  - exact (steady_ticking (fs sample_snapshot_0) _ _).
  - unfold sleep_max. lia.
Defined.

(** A negative interval stops the loop: with two rounds or more to run, the
    first round is reported and the sleep that follows it raises
    ValueError, which leaves the loop. *)
Theorem negative_interval_stops_the_loop (steamapps : path) (minutes interval : Z)
    (t : node) (w : World) :
  steady t w ->
  lookup_path t (path_join steamapps "downloading") = None \/
  (exists m es, lookup_path t (path_join steamapps "downloading") = Some (Dir m true es)) ->
  2 <= minutes ->
  - sleep_max <= interval < 0 ->
  fst (monitor steamapps minutes interval w) = Raise ValueError.
Proof.
  intros H D Hm Hi. unfold monitor.
  destruct (Z.to_nat (Z.max 1 minutes)) as [|[|n]] eqn:E; try lia.
  by apply (rounds_negative_interval t (current w) (proj1 H)).
Qed.

Lemma negative_interval_stops_the_loop_witness :
  fst (monitor ["steamapps"] 2 (-1) running_sample) = Raise ValueError.
Proof.
  apply (negative_interval_stops_the_loop ["steamapps"] 2 (-1) (fs sample_snapshot)
           running_sample).
  - exact (steady_ticking (fs sample_snapshot) _ _).
  - right. by exists 0%Q, sample_downloading.
  - lia.
  - unfold sleep_max. lia.
Defined.

(* ===================================================================== *)
(** * Further properties of the directory size scanner *)
(* ===================================================================== *)

Lemma tree_size_entries (m : Q) (es : list (string * node)) :
  tree_size (Some (Dir m true es)) = entries_size es.
Proof.
  rewrite tree_size_reachable. cbn [reachable_files].
  induction es as [|[nm x] r IH]; [reflexivity|].
  cbn [flat_map].
  change (entries_size ((nm, x) :: r)) with (entry_size (nm, x) + entries_size r).
  rewrite size_sum_app, IH. f_equal.
  unfold entry_size. cbn [snd]. destruct x as [st t|m' l es'].
  - cbn [size_sum fold_right]. lia.
  - symmetry. apply tree_size_reachable.
Qed.

Lemma entries_size_app (a b : list (string * node)) :
  entries_size (a ++ b) = entries_size a + entries_size b.
Proof.
  induction a as [|x a IH]; [reflexivity|].
  change (entries_size ((x :: a) ++ b)) with (entry_size x + entries_size (a ++ b)).
  change (entries_size (x :: a)) with (entry_size x + entries_size a).
  rewrite IH. lia.
Qed.

Lemma entries_size_cons (x : string * node) (l : list (string * node)) :
  entries_size (x :: l) = entry_size x + entries_size l.
Proof. reflexivity. Qed.

Lemma entries_size_perm (a b : list (string * node)) :
  Permutation a b -> entries_size a = entries_size b.
Proof. induction 1; rewrite ?entries_size_cons; lia. Qed.

(** The size of a directory is the sum of what its entries add: a file adds
    its size, a directory its own size, a directory that cannot be listed
    adds nothing; so the size of two listings put together is the sum of
    their sizes. *)
Theorem dir_size_is_sum_over_entries (m : Q) (es es' : list (string * node)) :
  tree_size (Some (Dir m true es)) = entries_size es /\
  (forall m' nm sub, entry_size (nm, Dir m' false sub) = 0) /\
  tree_size (Some (Dir m true (es ++ es'))) =
    tree_size (Some (Dir m true es)) + tree_size (Some (Dir m true es')).
Proof.
  split; [apply tree_size_entries|]. split; [reflexivity|].
  rewrite !tree_size_entries. apply entries_size_app.
Qed.

(** The size does not depend on the order in which the entries of a
    directory are listed. *)
Theorem dir_size_order_independent (m m' : Q) (es es' : list (string * node)) :
  Permutation es es' ->
  tree_size (Some (Dir m true es)) = tree_size (Some (Dir m' true es')).
Proof. intros H. rewrite !tree_size_entries. by apply entries_size_perm. Qed.

Lemma dir_size_order_independent_witness :
  tree_size (Some (Dir 0 true sample_tree_entries)) =
  tree_size (Some (Dir 1 true (rev sample_tree_entries))).
Proof.
  apply (dir_size_order_independent 0 1 sample_tree_entries (rev sample_tree_entries)).
  apply Permutation_rev.
Defined.

Lemma size_sum_nonneg (l : list (option stat_result)) :
  Forall (fun f => 0 <= size_or_zero f) l -> 0 <= size_sum l.
Proof. induction 1 as [|f r Hf Hr IH]; cbn; [lia | unfold size_sum in IH; lia]. Qed.

Lemma entry_sizes_nonneg (es : list (string * node)) :
  Forall (fun f => 0 <= size_or_zero f)
         (flat_map (fun e : string * node =>
                      match e with
                      | (_, File st _) => [st]
                      | (_, (Dir _ _ _) as d) => reachable_files d
                      end) es) ->
  Forall (fun e => 0 <= entry_size e) es.
Proof.
  induction es as [|[nm x] r IH]; [constructor|].
  cbn [flat_map]. intros H. apply Forall_app in H as [Hx Hr].
  constructor; [|by apply IH].
  unfold entry_size. cbn [snd]. destruct x as [st t|m l es'].
  - by inversion Hx.
  - rewrite tree_size_reachable. by apply size_sum_nonneg.
Qed.

Lemma entries_size_ge (es : list (string * node)) (e : string * node) :
  Forall (fun e => 0 <= entry_size e) es -> In e es ->
  0 <= entry_size e <= entries_size es.
Proof.
  induction 1 as [|x r Hx Hr IH]; intros Hin; [destruct Hin|].
  assert (0 <= entries_size r).
  { clear IH Hin. induction Hr as [|y r' Hy Hr' IH']; [cbn; lia|].
    rewrite entries_size_cons. lia. }
  rewrite entries_size_cons.
  destruct Hin as [->|Hin]; [lia|]. specialize (IH Hin). lia.
Qed.

(** When no file has a negative size, the size of a directory is not
    negative and is at least the size of each of its entries. *)
Theorem dir_size_bounds_entries (m : Q) (es : list (string * node)) (e : string * node) :
  sizes_nonneg (Dir m true es) ->
  In e es ->
  0 <= entry_size e <= tree_size (Some (Dir m true es)).
Proof.
  unfold sizes_nonneg. cbn [reachable_files]. intros H Hin.
  rewrite tree_size_entries. apply entries_size_ge; [|exact Hin].
  by apply entry_sizes_nonneg.
Qed.

Lemma dir_size_bounds_entries_witness :
  0 <= entry_size ("sub", Dir 5 true [("b", plain_file 200); ("c", plain_file 300)])
    <= tree_size (Some (Dir 0 true sample_tree_entries)).
Proof.
  apply (dir_size_bounds_entries 0 sample_tree_entries
           ("sub", Dir 5 true [("b", plain_file 200); ("c", plain_file 300)])).
  - unfold sizes_nonneg. cbn. repeat constructor; cbn; lia.
  - right. left. reflexivity.
Defined.

(* ===================================================================== *)
(** * Further properties of the manifest parser *)
(* ===================================================================== *)

(** ** Strings *)

Lemma append_cons (x : ascii) (a b : string) :
  (String x a ++ b = String x (a ++ b))%string.
Proof. reflexivity. Qed.

Lemma append_nil_l (a : string) : ("" ++ a = a)%string.
Proof. reflexivity. Qed.

Lemma append_assoc (a b c : string) : ((a ++ b) ++ c = a ++ (b ++ c))%string.
Proof.
  induction a as [|x a IH]; [reflexivity|]. rewrite !append_cons. f_equal. exact IH.
Qed.

Lemma append_nil_r (a : string) : (a ++ "" = a)%string.
Proof.
  induction a as [|x a IH]; [reflexivity|]. rewrite append_cons. f_equal. exact IH.
Qed.

Lemma is_quote_eq (c : ascii) : Str.is_quote c = true <-> c = ascii_of_nat 34.
Proof.
  unfold Str.is_quote. rewrite N.eqb_eq. split.
  - intros H. rewrite <- (ascii_N_embedding c), H. reflexivity.
  - intros ->. reflexivity.
Qed.

Lemma space_is_no_quote (c : ascii) : Str.isspace c = true -> Str.is_quote c = false.
Proof.
  unfold Str.isspace, Str.is_quote.
  destruct (N.eqb_spec (N_of_ascii c) 34) as [->|]; [discriminate | reflexivity].
Qed.

Lemma lstrip_spaces (a : string) : spaces a -> Str.lstrip a = "".
Proof.
  unfold spaces. induction a as [|x a IH]; cbn; [reflexivity|].
  intros H. apply andb_prop in H as [Hx Ha]. rewrite Hx. by apply IH.
Qed.

Lemma lstrip_app_spaces (a s : string) : spaces a -> Str.lstrip (a ++ s) = Str.lstrip s.
Proof.
  unfold spaces. induction a as [|x a IH]; [reflexivity|].
  cbn [Str.all_chars]. intros H. apply andb_prop in H as [Hx Ha].
  rewrite append_cons. cbn [Str.lstrip]. rewrite Hx. by apply IH.
Qed.

Lemma lstrip_split (s : string) :
  exists a, spaces a /\ s = (a ++ Str.lstrip s)%string.
Proof.
  induction s as [|x s (a & Ha & E)].
  - exists "". by split.
  - cbn [Str.lstrip]. destruct (Str.isspace x) eqn:Hx.
    + exists (String x a). split; [unfold spaces in *; cbn; by rewrite Hx|].
      rewrite append_cons. by rewrite <- E.
    + exists "". by split.
Qed.

Lemma lstrip_head (s : string) (c : ascii) (r : string) :
  Str.lstrip s = String c r -> Str.isspace c = false.
Proof.
  induction s as [|x s IH]; [discriminate|]. cbn [Str.lstrip].
  destruct (Str.isspace x) eqn:Hx; [exact IH|]. by intros [= <- _].
Qed.

Lemma span_split (s x y : string) :
  Str.span_nonquote s = (x, y) ->
  s = (x ++ y)%string /\ no_quote x /\
  (y = "" \/ exists r, y = String (ascii_of_nat 34) r).
Proof.
  unfold no_quote. revert x y. induction s as [|c s IH]; intros x y; cbn [Str.span_nonquote].
  - intros [= <- <-]. repeat split. by left.
  - destruct (Str.is_quote c) eqn:Hc.
    + intros [= <- <-]. apply is_quote_eq in Hc as ->. repeat split. right. eauto.
    + destruct (Str.span_nonquote s) as [a b]. intros [= <- <-].
      destruct (IH a b eq_refl) as (-> & Ha & Hb).
      repeat split; [cbn; by rewrite Hc | exact Hb].
Qed.

Lemma span_app_quote (x r : string) :
  no_quote x ->
  Str.span_nonquote (x ++ String (ascii_of_nat 34) r) = (x, String (ascii_of_nat 34) r).
Proof.
  unfold no_quote. induction x as [|c x IH]; cbn [Str.all_chars].
  - intros _. reflexivity.
  - intros H. apply andb_prop in H as [Hc Hx]. rewrite append_cons.
    cbn [Str.span_nonquote].
    apply negb_true_iff in Hc. rewrite Hc, (IH Hx). reflexivity.
Qed.

(** ** The pattern *)

Lemma kv_match_sound (line k v : string) :
  acf_kv_match line = Some (k, v) ->
  k <> "" /\ no_quote k /\ no_quote v /\
  exists a b c, spaces a /\ spaces b /\ spaces c /\
    line = (a ++ quote ++ k ++ quote ++ b ++ quote ++ v ++ quote ++ c)%string.
Proof.
  unfold acf_kv_match.
  destruct (lstrip_split line) as (a & Ha & Eline).
  destruct (Str.lstrip line) as [|q1 s1]; [discriminate|].
  destruct (Str.is_quote q1) eqn:Hq1; [|discriminate].
  apply is_quote_eq in Hq1 as ->.
  destruct (Str.span_nonquote s1) as [k0 s2] eqn:S1.
  apply span_split in S1 as (-> & Hk & Hs2).
  destruct k0 as [|kc kr]; [discriminate|]. cbn [Str.is_empty].
  destruct s2 as [|q2 s3]; [discriminate|].
  destruct Hs2 as [|(r2 & [= -> ->])]; [discriminate|].
  destruct (lstrip_split r2) as (b & Hb & Er2).
  destruct (Str.lstrip r2) as [|q3 s4]; [discriminate|].
  destruct (Str.is_quote q3) eqn:Hq3; [|discriminate].
  apply is_quote_eq in Hq3 as ->.
  destruct (Str.span_nonquote s4) as [v0 s5] eqn:S4.
  apply span_split in S4 as (-> & Hv & Hs5).
  destruct s5 as [|q5 s6]; [discriminate|].
  destruct Hs5 as [|(r5 & [= -> ->])]; [discriminate|].
  destruct (Str.all_chars Str.isspace r5) eqn:Hc; [|discriminate].
  intros [= <- <-]. split; [discriminate|]. split; [exact Hk|]. split; [exact Hv|].
  exists a, b, r5. split; [exact Ha|]. split; [exact Hb|]. split; [exact Hc|].
  rewrite Eline, Er2. unfold quote.
  rewrite ?append_cons, ?append_assoc, ?append_cons. reflexivity.
Qed.

Lemma kv_match_complete (k v a b c : string) :
  k <> "" -> no_quote k -> no_quote v -> spaces a -> spaces b -> spaces c ->
  acf_kv_match (a ++ quote ++ k ++ quote ++ b ++ quote ++ v ++ quote ++ c)
  = Some (k, v).
Proof.
  intros Hk Hnk Hnv Ha Hb Hc. unfold acf_kv_match, quote.
  rewrite !append_cons, !append_nil_l.
  rewrite (lstrip_app_spaces a _ Ha). cbn [Str.lstrip].
  change (Str.isspace (ascii_of_nat 34)) with false. cbv iota.
  change (Str.is_quote (ascii_of_nat 34)) with true. cbv iota.
  rewrite (span_app_quote k _ Hnk).
  destruct k as [|kc kr]; [done|]. cbn [Str.is_empty].
  rewrite (lstrip_app_spaces b _ Hb). cbn [Str.lstrip].
  change (Str.isspace (ascii_of_nat 34)) with false. cbv iota.
  change (Str.is_quote (ascii_of_nat 34)) with true. cbv iota.
  rewrite (span_app_quote v _ Hnv). unfold spaces in Hc. rewrite Hc. reflexivity.
Qed.

(** A line matches the pattern with key k and value v exactly when it is:
    white space, a quote, k, a quote, white space, a quote, v, a quote, white
    space, where k is not empty and neither k nor v holds a quote. *)
Theorem kv_match_shape (line k v : string) :
  acf_kv_match line = Some (k, v) <->
  (k <> "" /\ no_quote k /\ no_quote v /\
   exists a b c, spaces a /\ spaces b /\ spaces c /\
     line = (a ++ quote ++ k ++ quote ++ b ++ quote ++ v ++ quote ++ c)%string).
Proof.
  split; [apply kv_match_sound|].
  intros (Hk & Hnk & Hnv & a & b & c & Ha & Hb & Hc & ->).
  by apply kv_match_complete.
Qed.

(** ** The record *)

(** Every key of the record is a string that is not empty, and neither a
    key nor a value holds a double quote. *)
Theorem recorded_keys_well_formed (text k v : string) :
  parse_acf_text text !! k = Some v ->
  k <> "" /\ no_quote k /\ no_quote v.
Proof.
  rewrite parse_acf_text_first_value. intros H.
  apply first_value_In, recorded_pairs_In in H as (pre & raw & post & _ & Hm & _).
  apply kv_match_sound in Hm as (Hk & Hnk & Hnv & _). done.
Qed.

Lemma recorded_keys_well_formed_witness :
  "name" <> "" /\ no_quote "name" /\ no_quote "Portal".
Proof.
  apply (recorded_keys_well_formed sample_acf "name" "Portal").
  vm_compute. reflexivity.
Defined.

Lemma acf_line_passed_over (st : list string * gmap string string) (raw : string) :
  passed_over raw = true -> acf_line st raw = st.
Proof.
  unfold passed_over, acf_line. destruct st as [stack data].
  set (line := Str.strip raw).
  destruct (Str.is_empty line || Str.startswith line "//"); [reflexivity|].
  cbn [orb].
  destruct (String.eqb line "{"); [discriminate|].
  destruct (String.eqb line "}"); [discriminate|].
  destruct (acf_kv_match line) as [[k v]|]; [discriminate | reflexivity].
Qed.

(** Blank lines, comment lines and lines that are neither a brace nor a
    match of the pattern have no effect: the loop gives the same stack and
    the same record when they are taken out. *)
Theorem passed_over_lines_have_no_effect (lines : list string) :
  acf_loop (List.filter (fun raw => negb (passed_over raw)) lines) = acf_loop lines.
Proof.
  unfold acf_loop. generalize (@nil string, @empty (gmap string string) _).
  induction lines as [|raw r IH]; intros st; [reflexivity|].
  cbn [List.filter fold_left]. destruct (passed_over raw) eqn:P; cbn [negb].
  - rewrite (acf_line_passed_over st raw P). apply IH.
  - cbn [fold_left]. apply IH.
Qed.

(** ** White space around a line *)

Lemma rstrip_spaces (b : string) : spaces b -> Str.rstrip b = "".
Proof.
  unfold spaces. induction b as [|x b IH]; [reflexivity|].
  cbn [Str.all_chars Str.rstrip]. intros H. apply andb_prop in H as [Hx Hb].
  rewrite (IH Hb), Hx. reflexivity.
Qed.

Lemma rstrip_app_spaces (s b : string) : spaces b -> Str.rstrip (s ++ b) = Str.rstrip s.
Proof.
  intros Hb. induction s as [|x s IH]; [rewrite append_nil_l; by apply rstrip_spaces|].
  rewrite append_cons. cbn [Str.rstrip]. rewrite IH. reflexivity.
Qed.

Lemma lstrip_app_r (s b : string) :
  Str.lstrip (s ++ b) =
  if Str.is_empty (Str.lstrip s) then Str.lstrip b else (Str.lstrip s ++ b)%string.
Proof.
  induction s as [|x s IH]; [reflexivity|].
  rewrite append_cons. cbn [Str.lstrip].
  destruct (Str.isspace x); [exact IH | reflexivity].
Qed.

Lemma strip_surrounded (a raw b : string) :
  spaces a -> spaces b -> Str.strip (a ++ raw ++ b) = Str.strip raw.
Proof.
  intros Ha Hb. unfold Str.strip.
  rewrite (lstrip_app_spaces a _ Ha), lstrip_app_r.
  destruct (Str.lstrip raw) as [|c r] eqn:E; cbn [Str.is_empty].
  - by rewrite (lstrip_spaces b Hb).
  - by apply rstrip_app_spaces.
Qed.

(** White space before and after a line does not count: the line is
    stripped to the same text, and the loop treats it the same. *)
Theorem surrounding_space_ignored (a raw b : string)
    (st : list string * gmap string string) :
  spaces a -> spaces b ->
  Str.strip (a ++ raw ++ b) = Str.strip raw /\
  acf_line st (a ++ raw ++ b) = acf_line st raw.
Proof.
  intros Ha Hb. pose proof (strip_surrounded a raw b Ha Hb) as E.
  split; [exact E|]. unfold acf_line. rewrite E. reflexivity.
Qed.

Lemma surrounding_space_ignored_witness :
  Str.strip ("   " ++ kv_line "name" "Portal" ++ "  ") = Str.strip (kv_line "name" "Portal") /\
  acf_line (["{"], ∅) ("   " ++ kv_line "name" "Portal" ++ "  ")
    = acf_line (["{"], ∅) (kv_line "name" "Portal").
Proof.
  apply (surrounding_space_ignored "   " (kv_line "name" "Portal") "  " (["{"], ∅));
    reflexivity.
Defined.

(* ===================================================================== *)
(** * Properties of the formatting of sizes *)
(* ===================================================================== *)

Lemma scale_test (x : Q) (n : Z) (k : Z) :
  0 <= k ->
  (x == inject_Z n / inject_Z (1024 ^ k))%Q ->
  Qle_bool (inject_Z 1024) x = (1024 ^ (k + 1) <=? n).
Proof.
  intros Hk E.
  assert (Hpos : 0 < 1024 ^ k) by (apply Z.pow_pos_nonneg; lia).
  assert (HposQ : (0 < inject_Z (1024 ^ k))%Q).
  { change 0%Q with (inject_Z 0). by rewrite <- Zlt_Qlt. }
  apply eq_true_iff_eq. rewrite Qle_bool_iff, Z.leb_le, E.
  rewrite Z.pow_add_r, Z.pow_1_r by lia. split.
  - intros H. apply (Qmult_le_compat_r _ _ (inject_Z (1024 ^ k))) in H;
      [|by apply Qlt_le_weak].
    assert (Hc : (inject_Z n / inject_Z (1024 ^ k) * inject_Z (1024 ^ k)
                  == inject_Z n)%Q).
    { field. intros Hz. rewrite Hz in HposQ. by apply Qlt_irrefl in HposQ. }
    rewrite Hc, <- inject_Z_mult, <- Zle_Qle in H. lia.
  - intros H. apply Qle_shift_div_l; [exact HposQ|].
    rewrite <- inject_Z_mult, <- Zle_Qle. lia.
Qed.

Lemma scale_next (x : Q) (n : Z) (k : Z) :
  0 <= k ->
  (x == inject_Z n / inject_Z (1024 ^ k))%Q ->
  (x / inject_Z 1024 == inject_Z n / inject_Z (1024 ^ (k + 1)))%Q.
Proof.
  intros Hk E.
  assert (Hpos : 0 < 1024 ^ k) by (apply Z.pow_pos_nonneg; lia).
  assert (Hne : ~ (inject_Z (1024 ^ k) == 0)%Q).
  { change 0%Q with (inject_Z 0). rewrite inject_Z_injective. lia. }
  rewrite E, Z.pow_add_r, Z.pow_1_r, inject_Z_mult by lia.
  field. exact Hne.
Qed.

Lemma scale_bytes_unit (n : Z) :
  snd (scale_bytes (inject_Z n) "B" (tl units)) = nth (unit_index n) units "" /\
  (fst (scale_bytes (inject_Z n) "B" (tl units))
   == inject_Z n / inject_Z (1024 ^ Z.of_nat (unit_index n)))%Q.
Proof.
  assert (E0 : (inject_Z n == inject_Z n / inject_Z (1024 ^ 0))%Q).
  { change (inject_Z (1024 ^ 0)) with 1%Q. field. }
  pose proof (scale_next _ n 0 ltac:(lia) E0) as E1.
  pose proof (scale_next _ n 1 ltac:(lia) E1) as E2.
  pose proof (scale_next _ n 2 ltac:(lia) E2) as E3.
  pose proof (scale_next _ n 3 ltac:(lia) E3) as E4.
  unfold unit_index. cbn [units tl scale_bytes].
  rewrite (scale_test _ n 0 ltac:(lia) E0).
  destruct (Z.leb_spec (1024 ^ (0 + 1)) n) as [Ge1|Lt1];
    [|destruct (Z.ltb_spec n 1024); [split; [reflexivity | exact E0] | lia]].
  destruct (Z.ltb_spec n 1024); [lia|].
  rewrite (scale_test _ n 1 ltac:(lia) E1).
  destruct (Z.leb_spec (1024 ^ (1 + 1)) n) as [Ge2|Lt2];
    [|destruct (Z.ltb_spec n (1024 ^ 2)); [split; [reflexivity | exact E1] | lia]].
  destruct (Z.ltb_spec n (1024 ^ 2)); [lia|].
  rewrite (scale_test _ n 2 ltac:(lia) E2).
  destruct (Z.leb_spec (1024 ^ (2 + 1)) n) as [Ge3|Lt3];
    [|destruct (Z.ltb_spec n (1024 ^ 3)); [split; [reflexivity | exact E2] | lia]].
  destruct (Z.ltb_spec n (1024 ^ 3)); [lia|].
  rewrite (scale_test _ n 3 ltac:(lia) E3).
  destruct (Z.leb_spec (1024 ^ (3 + 1)) n) as [Ge4|Lt4];
    [|destruct (Z.ltb_spec n (1024 ^ 4)); [split; [reflexivity | exact E3] | lia]].
  destruct (Z.ltb_spec n (1024 ^ 4)); [lia|].
  split; [reflexivity | exact E4].
Qed.

Lemma float_of_int_exact (n : Z) :
  Z.abs n < 2 ^ 53 -> float_of_int n = Some (inject_Z n).
Proof.
  intros H. unfold float_of_int. by destruct (Z.ltb_spec (Z.abs n) (2 ^ 53)); [|lia].
Qed.

(** For a size below 2^53 in absolute value, which [float] holds exactly,
    [fmt_bytes] prints the size divided by 1024 as many times as it goes
    into it, at most four times, followed by the unit of that many
    divisions: B below 1024 (negative sizes included), KB below 1024^2, MB
    below 1024^3, GB below 1024^4, TB from there on. *)
Theorem fmt_bytes_unit_and_value (n : Z) :
  Z.abs n < 2 ^ 53 ->
  exists x,
    fmt_bytes n = Ok (format_2f x ++ " " ++ nth (unit_index n) units "")%string /\
    (x == inject_Z n / inject_Z (1024 ^ Z.of_nat (unit_index n)))%Q /\
    (unit_index n <= 4)%nat /\
    (unit_index n = 0%nat <-> n < 1024) /\
    (forall i, (0 < i < 4)%nat ->
       unit_index n = i <-> 1024 ^ Z.of_nat i <= n < 1024 ^ (Z.of_nat i + 1)) /\
    (unit_index n = 4%nat <-> 1024 ^ 4 <= n).
Proof.
  intros Hn. destruct (scale_bytes_unit n) as [Hu Hx].
  exists (fst (scale_bytes (inject_Z n) "B" (tl units))).
  split; [|split; [exact Hx|]].
  - unfold fmt_bytes. rewrite (float_of_int_exact n Hn).
    destruct (scale_bytes (inject_Z n) "B" (tl units)) as [x u].
    cbn [fst snd] in *. by rewrite Hu.
  - unfold unit_index.
    destruct (Z.ltb_spec n 1024); [|destruct (Z.ltb_spec n (1024 ^ 2));
      [|destruct (Z.ltb_spec n (1024 ^ 3)); [|destruct (Z.ltb_spec n (1024 ^ 4))]]].
    all: split; [lia|]; split; [split; intros; (lia || done)|]; split.
    all: try (split; intros; (lia || done)).
    all: intros i Hi; destruct i as [|[|[|[|i]]]]; try lia;
      change (Z.of_nat 1) with 1; change (Z.of_nat 2) with 2;
      change (Z.of_nat 3) with 3; change (1 + 1) with 2; change (2 + 1) with 3;
      change (3 + 1) with 4; change (1024 ^ 1) with 1024;
      split; intros; (lia || done).
Qed.

Lemma fmt_bytes_unit_and_value_witness :
  exists x,
    fmt_bytes 5767168 = Ok (format_2f x ++ " " ++ nth (unit_index 5767168) units "")%string /\
    (x == inject_Z 5767168 / inject_Z (1024 ^ Z.of_nat (unit_index 5767168)))%Q /\
    (unit_index 5767168 <= 4)%nat /\
    (unit_index 5767168 = 0%nat <-> 5767168 < 1024) /\
    (forall i, (0 < i < 4)%nat ->
       unit_index 5767168 = i <->
       1024 ^ Z.of_nat i <= 5767168 < 1024 ^ (Z.of_nat i + 1)) /\
    (unit_index 5767168 = 4%nat <-> 1024 ^ 4 <= 5767168).
Proof. apply (fmt_bytes_unit_and_value 5767168). reflexivity. Defined.

Lemma format_2f_whole (n : Z) :
  0 <= n -> format_2f (inject_Z n) = (decimal n ++ ".00")%string.
Proof.
  intros Hn. unfold format_2f.
  assert (Hs : Qlt_bool (inject_Z n) 0 = false).
  { unfold Qlt_bool, Qle_bool. cbn. apply negb_false_iff, Z.leb_le. lia. }
  rewrite Hs.
  assert (Hr : round_half_even (Qabs (inject_Z n) * inject_Z 100) = n * 100).
  { unfold round_half_even. cbn [Qabs inject_Z Qmult Qnum Qden].
    change (Z.pos (1 * 1)) with 1. rewrite Z.mod_1_r, Z.div_1_r, Z.abs_eq by lia.
    reflexivity. }
  rewrite Hr, Z.div_mul, Z.mod_mul by lia. reflexivity.
Qed.

(** A size from 0 to 1023 is printed as that number of bytes, with two
    zeros after the point and the unit B. *)
Theorem fmt_bytes_below_1024 (n : Z) :
  0 <= n < 1024 -> fmt_bytes n = Ok (decimal n ++ ".00 B")%string.
Proof.
  intros Hn. unfold fmt_bytes. rewrite float_of_int_exact by lia.
  cbn [units tl scale_bytes].
  assert (Hq : Qle_bool (inject_Z 1024) (inject_Z n) = false).
  { unfold Qle_bool. cbn. apply Z.leb_gt. lia. }
  rewrite Hq, format_2f_whole by lia. rewrite append_assoc. reflexivity.
Qed.

Lemma fmt_bytes_below_1024_witness : fmt_bytes 1023 = Ok (decimal 1023 ++ ".00 B")%string.
Proof. apply (fmt_bytes_below_1024 1023). lia. Defined.

(* ===================================================================== *)
(** * Properties of the formatting of rates *)
(* ===================================================================== *)

Lemma round_half_even_small (q : Q) :
  (0 <= q)%Q -> (q <= 1 # 2)%Q -> round_half_even q = 0.
Proof.
  destruct q as [n d]. unfold Qle, round_half_even. cbn [Qnum Qden].
  intros H0 H1.
  assert (Hn : 0 <= n < Z.pos d) by lia.
  rewrite (Z.div_small _ _ Hn), (Z.mod_small _ _ Hn).
  destruct (Z.compare_spec (2 * n) (Z.pos d)); [reflexivity | reflexivity | lia].
Qed.

Lemma format_2f_small (q : Q) :
  (0 <= q)%Q -> (q * inject_Z 200 <= 1)%Q -> format_2f q = "0.00".
Proof.
  intros H0 H1. unfold format_2f.
  assert (Hs : Qlt_bool q 0 = false).
  { unfold Qlt_bool. apply negb_false_iff, Qle_bool_iff, H0. }
  rewrite Hs, round_half_even_small; [reflexivity| |].
  - apply Qmult_le_0_compat; [apply Qabs_nonneg | discriminate].
  - rewrite (Qabs_pos q H0).
    apply (Qmult_le_r _ _ (inject_Z 2)); [reflexivity|].
    assert (E : (q * inject_Z 100 * inject_Z 2 == q * inject_Z 200)%Q) by ring.
    assert (E1 : ((1 # 2) * inject_Z 2 == 1)%Q) by reflexivity.
    rewrite E, E1. exact H1.
Qed.

(** A rate from 0 to 5242.88 bytes per second is shown as 0.00 MB/s.  So a
    round that is tagged paused or idle and spans 50 seconds or more always
    shows the speed 0.00 MB/s. *)
Theorem paused_round_shows_zero_speed (interval : Z) (now : Q) (st : RateState)
    (a : ActiveDownload) :
  status st a = "paused or idle" ->
  (inject_Z 50 <= dt interval now st a)%Q ->
  exists mbit,
    human_rate (rate interval now st a) = ("0.00 MB/s (" ++ mbit ++ " Mbit/s)")%string.
Proof.
  intros Hs Hdt. unfold human_rate.
  eexists. rewrite format_2f_small; [reflexivity | |].
  - apply Qle_shift_div_l; [reflexivity|]. rewrite Qmult_0_l.
    unfold rate. apply Qle_shift_div_l.
    + eapply Qlt_le_trans; [|exact Hdt]. reflexivity.
    + rewrite Qmult_0_l. change 0%Q with (inject_Z 0). rewrite <- Zle_Qle.
      unfold delta. lia.
  - assert (Hd : delta st a <= 262143).
    { unfold status in Hs. destruct (Z.ltb_spec (delta st a) (256 * 1024)); [lia | discriminate]. }
    assert (Hpos : (0 < dt interval now st a)%Q).
    { eapply Qlt_le_trans; [|exact Hdt]. reflexivity. }
    unfold rate.
    assert (E : (inject_Z (delta st a) / dt interval now st a
                   / inject_Z (1024 * 1024) * inject_Z 200
                 == (inject_Z (delta st a) * inject_Z 200 / inject_Z (1024 * 1024))
                    / dt interval now st a)%Q).
    { field. split; [discriminate|].
      intros Hz. rewrite Hz in Hpos. by apply Qlt_irrefl in Hpos. }
    rewrite E.
    apply Qle_shift_div_r; [exact Hpos|]. rewrite Qmult_1_l.
    eapply Qle_trans; [|exact Hdt].
    apply Qle_shift_div_r; [reflexivity|].
    rewrite <- !inject_Z_mult, <- Zle_Qle. lia.
Qed.

Lemma paused_round_shows_zero_speed_witness :
  exists mbit,
    human_rate (rate 60 1060 (snd (rate_step 60 1000 (Some first_seen_123) empty_state))
                  slow_123)
    = ("0.00 MB/s (" ++ mbit ++ " Mbit/s)")%string.
Proof.
  apply (paused_round_shows_zero_speed 60 1060
           (snd (rate_step 60 1000 (Some first_seen_123) empty_state)) slow_123).
  - reflexivity.
  - vm_compute. discriminate.
Defined.

(* ===================================================================== *)
(** * Properties of the start-up *)
(* ===================================================================== *)

Lemma reg_get_value_some (h : Host) (root : hive) (key name v : string) :
  _reg_get_value h root key name = Some v <->
  registry h root key name = Some (RegString v) /\ v <> "".
Proof.
  unfold _reg_get_value. destruct (registry h root key name) as [[s|]|].
  - destruct s as [|c s]; cbn [Str.is_empty]; split.
    + discriminate.
    + intros [[= <-] H]. done.
    + intros [= <-]. done.
    + intros [[= <-] _]. reflexivity.
  - split; [discriminate | intros [[=] _]].
  - split; [discriminate | intros [[=] _]].
Qed.

Lemma try_candidates_some (h : Host) (cs : list (hive * string * string)) :
  forall w p w',
    try_candidates h cs w = (Ok (Some p), w') ->
    (exists root key name v,
       In (root, key, name) cs /\
       registry h root key name = Some (RegString v) /\ v <> "" /\
       expanduser h v = Some p) /\
    (upcoming w = [] -> lookup_path (fs (current w)) p <> None).
Proof.
  induction cs as [|[[root key] name] r IH]; intros w p w'; [discriminate|].
  cbn [try_candidates].
  destruct (_reg_get_value h root key name) as [v|] eqn:R.
  - apply reg_get_value_some in R as [R Hv].
    destruct (expanduser h v) as [q|] eqn:X; [|discriminate].
    unfold bind, path_exists, observe.
    destruct (lookup_path (fs (current w)) q) eqn:L.
    + unfold ret. intros [= <- _]. split; [|intros _; by rewrite L].
      exists root, key, name, v. split; [by left | done].
    + intros H. destruct (IH _ _ _ H) as [(root' & key' & name' & v' & Hin & Hrest) Hex].
      split; [exists root', key', name', v'; split; [by right | exact Hrest]|].
      intros Hf.
      assert (Ha : advance w = w) by (unfold advance; by rewrite Hf).
      rewrite Ha in Hex. exact (Hex Hf).
  - intros H. destruct (IH _ _ _ H) as [(root' & key' & name' & v' & Hin & Hrest) Hex].
    split; [|exact Hex]. exists root', key', name', v'. split; [by right | exact Hrest].
Qed.

Lemma try_candidates_total (h : Host) (cs : list (hive * string * string)) :
  forall w, exists r, fst (try_candidates h cs w) = Ok r.
Proof.
  induction cs as [|[[root key] name] r IH]; intros w; [by exists None|].
  cbn [try_candidates].
  destruct (_reg_get_value h root key name) as [v|]; [|apply IH].
  destruct (expanduser h v) as [q|]; [|by exists None].
  unfold bind, path_exists, observe.
  destruct (lookup_path (fs (current w)) q); [by eexists | apply IH].
Qed.

(** The registry lookup never raises; off Windows it gives nothing and
    reads nothing.  A path it returns comes from one of the three registry
    values, which is a string that is not empty, and it existed when it was
    checked. *)
Theorem find_steam_path_result (h : Host) (w : World) :
  (exists r, fst (find_steam_path h w) = Ok r) /\
  (IS_WINDOWS h = false -> find_steam_path h w = (Ok None, w)) /\
  (forall p w',
     find_steam_path h w = (Ok (Some p), w') ->
     IS_WINDOWS h = true /\
     (exists root key name v,
        In (root, key, name) steam_registry_candidates /\
        registry h root key name = Some (RegString v) /\ v <> "" /\
        expanduser h v = Some p) /\
     (upcoming w = [] -> lookup_path (fs (current w)) p <> None)).
Proof.
  unfold find_steam_path. destruct (IS_WINDOWS h); cbn [negb].
  - split; [apply try_candidates_total|]. split; [discriminate|].
    intros p w' H. split; [reflexivity|]. by apply (try_candidates_some h _ w p w').
  - split; [by exists None|]. split; [reflexivity | discriminate].
Qed.

Lemma find_steam_path_result_witness :
  IS_WINDOWS sample_host = true /\
  (exists root key name v,
     In (root, key, name) steam_registry_candidates /\
     registry sample_host root key name = Some (RegString v) /\ v <> "" /\
     expanduser sample_host v = Some ["steam"]) /\
  (upcoming (frozen steam_snapshot) = [] ->
   lookup_path (fs (current (frozen steam_snapshot))) ["steam"] <> None).
Proof.
  destruct (find_steam_path_result sample_host (frozen steam_snapshot)) as (_ & _ & H).
  apply (H ["steam"] (frozen steam_snapshot)). reflexivity.
Defined.

(** The first registry value wins: when the value of the current user is a
    string that is not empty and names a directory that exists, it is the
    result, whatever the other two values are.  When [expanduser] raises on
    it, the search is over and the result is nothing, the other two values
    are not tried. *)
Theorem first_registry_value_decides (h : Host) (w : World) (v : string) :
  IS_WINDOWS h = true ->
  registry h HKEY_CURRENT_USER "Software\Valve\Steam" "SteamPath" = Some (RegString v) ->
  v <> "" ->
  match expanduser h v with
  | Some p =>
      lookup_path (fs (current w)) p <> None ->
      find_steam_path h w = (Ok (Some p), advance w)
  | None => find_steam_path h w = (Ok None, w)
  end.
Proof.
  intros Hw Hr Hv. unfold find_steam_path. rewrite Hw. cbn [negb].
  cbn [steam_registry_candidates try_candidates].
  rewrite (proj2 (reg_get_value_some h _ _ _ v) (conj Hr Hv)).
  destruct (expanduser h v) as [p|]; [|reflexivity].
  intros Hex. unfold bind, path_exists, observe.
  destruct (lookup_path (fs (current w)) p); [reflexivity | done].
Qed.

Lemma first_registry_value_decides_witness :
  find_steam_path sample_host (frozen steam_snapshot)
    = (Ok (Some ["steam"]), advance (frozen steam_snapshot)).
Proof.
  refine (first_registry_value_decides sample_host (frozen steam_snapshot) "c:/steam"
            eq_refl eq_refl _ _); discriminate.
Defined.

(** With [--background], [main] starts no monitoring and reads nothing: it
    returns 0 at once.  On Windows it starts one process, whose command line
    is the interpreter followed by the arguments without any --background,
    so the process it starts does not detach again; elsewhere it starts
    nothing. *)
Theorem background_run_detaches (h : Host) (argv : list string) (args : Args)
    (w : World) :
  background args = true ->
  exists run,
    main h argv args w = (Ok run, w) /\
    exit_code run = 0 /\ stdout run = [] /\
    (IS_WINDOWS h = false -> spawned run = None) /\
    (IS_WINDOWS h = true ->
     exists rest,
       spawned run = Some (executable h :: rest) /\
       ~ In "--background" rest /\
       (forall a, a <> "--background" -> (In a rest <-> In a argv)) /\
       (length rest <= length argv)%nat).
Proof.
  intros Hb. unfold main. rewrite Hb. eexists. split; [reflexivity|].
  cbn [exit_code stdout spawned]. split; [reflexivity|]. split; [reflexivity|].
  unfold detach_to_background. split; intros ->; cbn [negb]; [reflexivity|].
  eexists. split; [reflexivity|]. split; [|split].
  - intros Hin. apply filter_In in Hin as [_ Hf]. by rewrite String.eqb_refl in Hf.
  - intros a Ha. rewrite filter_In. split; [tauto|]. intros Hin. split; [exact Hin|].
    apply negb_true_iff. by apply String.eqb_neq.
  - apply filter_length_le.
Qed.

Lemma background_run_detaches_witness :
  exists run,
    main sample_host ["monitor.py"; "--background"; "--minutes"; "3"]
         {| minutes := 3; interval := 60; background := true |}
         (frozen steam_snapshot) = (Ok run, frozen steam_snapshot) /\
    exit_code run = 0 /\ stdout run = [] /\
    (IS_WINDOWS sample_host = false -> spawned run = None) /\
    (IS_WINDOWS sample_host = true ->
     exists rest,
       spawned run = Some (executable sample_host :: rest) /\
       ~ In "--background" rest /\
       (forall a, a <> "--background" ->
          (In a rest <-> In a ["monitor.py"; "--background"; "--minutes"; "3"])) /\
       (length rest <= length ["monitor.py"; "--background"; "--minutes"; "3"])%nat).
Proof.
  apply (background_run_detaches sample_host
           ["monitor.py"; "--background"; "--minutes"; "3"]
           {| minutes := 3; interval := 60; background := true |}
           (frozen steam_snapshot)).
  reflexivity.
Defined.

(** Off Windows, a run without [--background] prints that Steam was not
    found and returns 2, whatever the file system holds and without
    reading it. *)
Theorem no_steam_off_windows (h : Host) (argv : list string) (args : Args) (w : World) :
  IS_WINDOWS h = false ->
  background args = false ->
  main h argv args w =
  (Ok {| stdout := [SteamNotFound]; spawned := None; exit_code := 2 |}, w).
Proof.
  intros Hw Hb. unfold main, find_steam_path, bind. rewrite Hb, Hw. reflexivity.
Qed.

Lemma no_steam_off_windows_witness :
  main posix_host ["monitor.py"] {| minutes := 5; interval := 60; background := false |}
       (frozen sample_snapshot)
  = (Ok {| stdout := [SteamNotFound]; spawned := None; exit_code := 2 |},
     frozen sample_snapshot).
Proof.
  apply (no_steam_off_windows posix_host ["monitor.py"]
           {| minutes := 5; interval := 60; background := false |}
           (frozen sample_snapshot)); reflexivity.
Defined.

(** When [main] returns, its value is 0, 2 or 3.  It is 2 with the single
    line that Steam was not found, 3 with the single line that the steamapps
    directory was not found, and, without [--background], 0 after the two
    opening lines and max(1, minutes) round lines.  A process is started
    only with [--background] on Windows. *)
Theorem main_exit_codes (h : Host) (argv : list string) (args : Args) (w : World)
    (run : Run) (w' : World) :
  main h argv args w = (Ok run, w') ->
  (exit_code run = 0 \/ exit_code run = 2 \/ exit_code run = 3) /\
  (exit_code run = 2 -> stdout run = [SteamNotFound]) /\
  (exit_code run = 3 ->
   exists sp, stdout run = [SteamappsNotFound (path_join sp "steamapps")]) /\
  (exit_code run = 0 -> background args = false ->
   exists sp reports,
     stdout run = SteamFound sp :: Monitoring :: map Round reports /\
     length reports = Z.to_nat (Z.max 1 (minutes args))) /\
  (spawned run <> None -> background args = true /\ IS_WINDOWS h = true).
Proof.
  unfold main. destruct (background args) eqn:Hb.
  - unfold ret. intros [= <- _]. cbn [exit_code stdout spawned].
    split; [by left|]. split; [discriminate|]. split; [discriminate|].
    split; [discriminate|].
    unfold detach_to_background. destruct (IS_WINDOWS h); cbn [negb]; done.
  - unfold bind at 1.
    destruct (find_steam_path h w) as [[[sp|]|e] w1]; [| |discriminate].
    + unfold bind at 1. unfold path_exists at 1, observe at 1.
      destruct (lookup_path (fs (current w1)) (path_join sp "steamapps")); cbn [negb].
      * unfold bind at 1. unfold time_time at 1, observe at 1. unfold bind.
        destruct (monitor _ _ _ _) as [[[reports st']|e] w2] eqn:M; [|discriminate].
        unfold ret. intros [= <- _]. cbn [exit_code stdout spawned fst].
        split; [by left|]. split; [discriminate|]. split; [discriminate|].
        split; [|done]. intros _ _. exists sp, reports. split; [reflexivity|].
        unfold monitor in M. by apply rounds_inv in M as [Hl _].
      * unfold ret. intros [= <- _]. cbn [exit_code stdout spawned].
        split; [right; by right|]. split; [discriminate|].
        split; [intros _; by exists sp|]. split; [discriminate | done].
    + unfold ret. intros [= <- _]. cbn [exit_code stdout spawned].
      split; [right; by left|]. split; [reflexivity|].
      split; [discriminate|]. split; [discriminate | done].
Qed.

Lemma main_exit_codes_witness :
  exists sp reports,
    [SteamFound ["steam"]; Monitoring; Round NoActive; Round NoActive]
      = SteamFound sp :: Monitoring :: map Round reports /\
    length reports = Z.to_nat (Z.max 1 2).
Proof.
  destruct (main_exit_codes sample_host ["monitor.py"]
              {| minutes := 2; interval := 60; background := false |}
              (frozen steam_snapshot)
              {| stdout := [SteamFound ["steam"]; Monitoring; Round NoActive; Round NoActive];
                 spawned := None; exit_code := 0 |}
              (frozen steam_snapshot))
    as (_ & _ & _ & H & _).
  - vm_compute. reflexivity.
  - apply H; reflexivity.
Defined.

(* ===================================================================== *)
(** * Properties of the parser on whole texts *)
(* ===================================================================== *)

Lemma splitlines_from_line (l : string) :
  no_break l ->
  forall cur rest,
    Str.splitlines_from cur (l ++ rest) = Str.splitlines_from (cur ++ l) rest.
Proof.
  unfold no_break. induction l as [|c l IH]; intros H cur rest.
  - by rewrite append_nil_l, append_nil_r.
  - cbn [Str.all_chars] in H. apply andb_prop in H as [Hc Hl].
    apply negb_true_iff in Hc. rewrite append_cons. cbn [Str.splitlines_from].
    rewrite Hc, (IH Hl), append_assoc. reflexivity.
Qed.

Lemma splitlines_from_lf (cur rest : string) :
  Str.splitlines_from cur (lf ++ rest) = cur :: Str.splitlines_from "" rest.
Proof. destruct rest; reflexivity. Qed.

Lemma splitlines_from_crlf (cur rest : string) :
  Str.splitlines_from cur (crlf ++ rest) = cur :: Str.splitlines_from "" rest.
Proof. reflexivity. Qed.

Lemma splitlines_unlines (sep : string) (ls : list string) :
  (forall cur rest,
     Str.splitlines_from cur (sep ++ rest) = cur :: Str.splitlines_from "" rest) ->
  Forall no_break ls ->
  Str.splitlines (unlines sep ls) = ls.
Proof.
  intros Hsep. unfold Str.splitlines. induction 1 as [|l r Hl Hr IH]; [reflexivity|].
  cbn [unlines]. rewrite (splitlines_from_line l Hl), Hsep, append_nil_l, IH.
  reflexivity.
Qed.

(** A text whose lines end in LF and the same text with lines that end in
    CR LF are split into the same lines, so they give the same record. *)
Theorem line_endings_do_not_matter (ls : list string) :
  Forall no_break ls ->
  Str.splitlines (unlines lf ls) = ls /\
  Str.splitlines (unlines crlf ls) = ls /\
  parse_acf_text (unlines crlf ls) = parse_acf_text (unlines lf ls).
Proof.
  intros H.
  pose proof (splitlines_unlines lf ls splitlines_from_lf H) as E1.
  pose proof (splitlines_unlines crlf ls splitlines_from_crlf H) as E2.
  split; [exact E1|]. split; [exact E2|].
  unfold parse_acf_text. by rewrite E1, E2.
Qed.

Lemma line_endings_do_not_matter_witness :
  Str.splitlines (unlines lf ["{"; kv_line "name" "Portal"; ""; "}"])
    = ["{"; kv_line "name" "Portal"; ""; "}"] /\
  Str.splitlines (unlines crlf ["{"; kv_line "name" "Portal"; ""; "}"])
    = ["{"; kv_line "name" "Portal"; ""; "}"] /\
  parse_acf_text (unlines crlf ["{"; kv_line "name" "Portal"; ""; "}"])
    = parse_acf_text (unlines lf ["{"; kv_line "name" "Portal"; ""; "}"]).
Proof.
  apply (line_endings_do_not_matter ["{"; kv_line "name" "Portal"; ""; "}"]).
  repeat constructor.
Defined.

Lemma recorded_pairs_flat (lines : list string) :
  Forall (fun raw => Str.strip raw <> "{") lines -> recorded_pairs 0 lines = [].
Proof.
  induction 1 as [|raw r Hraw Hr IH]; [reflexivity|].
  cbn [recorded_pairs]. cbn [Nat.leb].
  assert (Hd : depth_step 0 raw = 0%nat).
  { unfold depth_step. destruct (String.eqb_spec (Str.strip raw) "{"); [done|].
    by destruct (String.eqb (Str.strip raw) "}"). }
  rewrite Hd, IH. by destruct (acf_kv_match (Str.strip raw)).
Qed.

(** A text without a line that is an opening brace gives the empty record,
    whatever pairs it holds. *)
Theorem no_opening_brace_no_record (text : string) :
  Forall (fun raw => Str.strip raw <> "{") (Str.splitlines text) ->
  parse_acf_text text = ∅.
Proof.
  intros H. apply map_eq. intros k.
  rewrite parse_acf_text_first_value, (recorded_pairs_flat _ H), lookup_empty.
  reflexivity.
Qed.

Lemma no_opening_brace_no_record_witness :
  parse_acf_text (unlines lf [kv_line "appid" "123"; kv_line "name" "Portal"; "}"]) = ∅.
Proof.
  apply (no_opening_brace_no_record
           (unlines lf [kv_line "appid" "123"; kv_line "name" "Portal"; "}"])).
  vm_compute. repeat constructor; discriminate.
Defined.
